(** * CloneSphere: the fidelity-refinement core of [backend/app/llm/llm_cloner.py]

    A shallow embedding of [WebsiteCloner]: the image classifier
    [filter_meaningful_images], the content and asset scorers
    [_simple_content_validation] and [_validate_smart_image_implementation],
    the normaliser [_extract_html]/[_fix_html], the error page
    [_create_error_page] and the refinement loop of [clone_website].

    Modelling choices:
    - a Python [str] is a list of code points ([list N]); [s] turns an ASCII
      Rocq string literal into one;
    - Python floats (scores, image geometry coming from
      [getBoundingClientRect]) are rationals [Q];
    - [str.lower] is left abstract (a Section variable [lower]); the concrete
      runs use [ascii_lower], which is what [str.lower] does on ASCII text;
    - the external collaborators (the model calls behind [_generate_html] and
      [_simple_refine], [render_generated_html] followed by
      [compare_base64_images]) are oracles collected in a record [env];
      [None] (or [inl msg]) stands for a raised exception. *)

From Stdlib Require Import QArith Qround String Ascii NArith ZArith List Bool.
From Stdlib Require Import Permutation Sorted Lia Lqa.
Import ListNotations.

Open Scope Q_scope.

(** Python's [<] on floats. *)
Definition Qlt_bool (a b : Q) : bool := negb (Qle_bool b a).

(** Python's [min(a, b)]: the first argument unless the second is smaller. *)
Definition py_min (a b : Q) : Q := if Qlt_bool b a then b else a.

(** ** Python strings *)

Definition pystr := list N.

Definition s (x : string) : pystr := map N_of_ascii (list_ascii_of_string x).

Fixpoint starts_with (p t : pystr) : bool :=
  match p, t with
  | [], _ => true
  | a :: p', b :: t' => N.eqb a b && starts_with p' t'
  | _ :: _, [] => false
  end.

(** [needle in hay] *)
Fixpoint contains (needle hay : pystr) : bool :=
  match hay with
  | [] => starts_with needle []
  | _ :: hay' => starts_with needle hay || contains needle hay'
  end.

Definition ends_with (p t : pystr) : bool := starts_with (rev p) (rev t).

Definition nonempty (x : pystr) : bool :=
  match x with [] => false | _ => true end.

(** [x.split('/')[-1]]: the text after the last slash. *)
Fixpoint last_segment_aux (cur : pystr) (t : pystr) : pystr :=
  match t with
  | [] => rev cur
  | c :: t' => if N.eqb c 47%N then last_segment_aux [] t'
               else last_segment_aux (c :: cur) t'
  end.

Definition last_segment (t : pystr) : pystr := last_segment_aux [] t.

(** [str.isspace] on one code point (the characters [str.strip()] removes). *)
Definition py_isspace (c : N) : bool :=
  ((9 <=? c) && (c <=? 13))%N || ((28 <=? c) && (c <=? 32))%N
  || (c =? 133)%N || (c =? 160)%N || (c =? 5760)%N
  || ((8192 <=? c) && (c <=? 8202))%N
  || (c =? 8232)%N || (c =? 8233)%N || (c =? 8239)%N || (c =? 8287)%N
  || (c =? 12288)%N.

Fixpoint lstrip (t : pystr) : pystr :=
  match t with
  | c :: t' => if py_isspace c then lstrip t' else t
  | [] => []
  end.

(** [str.strip()] *)
Definition strip (t : pystr) : pystr := rev (lstrip (rev (lstrip t))).

(** [str.lower] on ASCII letters; the concrete instance of [lower]. *)
Definition ascii_lower (t : pystr) : pystr :=
  map (fun c => if ((65 <=? c) && (c <=? 90))%N then (c + 32)%N else c) t.

(** Decimal digits of a natural number, as [str(int(...))] prints them. *)
Fixpoint uint_digits (d : Decimal.uint) : pystr :=
  match d with
  | Decimal.Nil => []
  | Decimal.D0 d => 48%N :: uint_digits d
  | Decimal.D1 d => 49%N :: uint_digits d
  | Decimal.D2 d => 50%N :: uint_digits d
  | Decimal.D3 d => 51%N :: uint_digits d
  | Decimal.D4 d => 52%N :: uint_digits d
  | Decimal.D5 d => 53%N :: uint_digits d
  | Decimal.D6 d => 54%N :: uint_digits d
  | Decimal.D7 d => 55%N :: uint_digits d
  | Decimal.D8 d => 56%N :: uint_digits d
  | Decimal.D9 d => 57%N :: uint_digits d
  end.

(** [str(int(q))] for a positive float [q]: [int] truncates, which is the
    floor on positive numbers. *)
Definition int_str (q : Q) : pystr := uint_digits (N.to_uint (Z.to_N (Qfloor q))).

(** ** Image descriptors and the classifier ([filter_meaningful_images]) *)

(** One entry of [visual_context['image_descriptions']]; the defaults of the
    [img.get(...)] calls are the values a missing key reads as
    (width/height 0, src/alt/context '', position.top 999). *)
Record image_desc := mkImage {
  width : Q;
  height : Q;
  src : pystr;
  alt : pystr;
  context : pystr;
  top : Q
}.

Inductive tier := Icon | Logo | Content.

(** [img_data = {**img, 'actual_url': ..., 'area': ..., 'suggested_type': ...}] *)
Record img_data := mkImgData {
  base : image_desc;
  actual_url : pystr;
  area : Q;
  suggested_type : tier
}.

Record categories := mkCategories {
  meaningful_images : list img_data;
  logos : list img_data;
  tiny_icons : list img_data
}.

(** [sort(key=lambda x: x['area'], reverse=True)]: a stable sort by
    descending area; an element goes after every element of at least its
    area, so equal areas keep their input order. *)
Fixpoint insert_desc (x : img_data) (l : list img_data) : list img_data :=
  match l with
  | [] => [x]
  | y :: l' => if Qlt_bool (area y) (area x) then x :: y :: l'
               else y :: insert_desc x l'
  end.

Definition sort_by_area_desc (l : list img_data) : list img_data :=
  fold_left (fun acc x => insert_desc x acc) l [].

Definition picsum : pystr := s "picsum.photos".

Definition placeholder_url (img : image_desc) : pystr :=
  s "https://picsum.photos/"
  ++ (if Qlt_bool 0 (width img) then int_str (width img) else s "400")
  ++ s "/"
  ++ (if Qlt_bool 0 (height img) then int_str (height img) else s "300").

(** [actual_url = src if src and not src.startswith('data:') else f"https://picsum.photos/..."] *)
Definition resolve_url (img : image_desc) : pystr :=
  if nonempty (src img) && negb (starts_with (s "data:") (src img))
  then src img else placeholder_url img.

Definition context_indicators : list pystr :=
  [s "product"; s "feature"; s "hero"; s "banner"; s "main"].

Section Lower.

(** Python's [str.lower]. *)
Variable lower : pystr -> pystr.

Definition tier_of (img : image_desc) : tier :=
  let w := width img in
  let h := height img in
  if Qle_bool w 32 && Qle_bool h 32 then Icon
  else if contains (s "logo") (lower (alt img))
          || contains (s "logo") (lower (src img))
          || (Qlt_bool w 200 && Qlt_bool h 100 && Qlt_bool (top img) 200)
  then Logo
  else if Qle_bool 100 w || Qle_bool 100 h then Content
  else if existsb (fun ind => contains ind (lower (context img))) context_indicators
  then Content
  else Icon.

Definition annotate (img : image_desc) : img_data :=
  mkImgData img (resolve_url img) (width img * height img) (tier_of img).

(** The [for img in image_descriptions] loop: appends to the three lists. *)
Definition partition_step (c : categories) (img : image_desc) : categories :=
  let d := annotate img in
  match suggested_type d with
  | Icon => mkCategories (meaningful_images c) (logos c) (tiny_icons c ++ [d])
  | Logo => mkCategories (meaningful_images c) (logos c ++ [d]) (tiny_icons c)
  | Content => mkCategories (meaningful_images c ++ [d]) (logos c) (tiny_icons c)
  end.

Definition filter_meaningful_images (imgs : list image_desc) : categories :=
  let c := fold_left partition_step imgs (mkCategories [] [] []) in
  mkCategories (sort_by_area_desc (meaningful_images c))
               (sort_by_area_desc (logos c))
               (tiny_icons c).


(** ** The scraped document *)

(** [scraped_data['text']]; only the lists the scorers read. *)
Record text_data := mkText {
  headings : list pystr;
  buttons : list pystr;
  navigation : list pystr
}.

Record scraped := mkScraped {
  visual_screenshot : pystr;   (* scraped_data['visual']['screenshot_base64'] *)
  screenshot_base64 : pystr;   (* scraped_data['screenshot_base64'] *)
  text : text_data;
  image_descriptions : list image_desc  (* scraped_data['visual_context']['image_descriptions'] *)
}.

(** [a or b] on strings. *)
Definition py_or (a b : pystr) : pystr := if nonempty a then a else b.

Definition original_screenshot (sd : scraped) : pystr :=
  py_or (visual_screenshot sd) (screenshot_base64 sd).

(** ** Content scorer ([_simple_content_validation]) *)

Definition dq : pystr := [34%N].

(** The text [onclick=Qreturn false;Q], Q a double quote. *)
Definition onclick_false : pystr := s "onclick=" ++ dq ++ s "return false;" ++ dq.

Definition landmark_tags : list pystr := [s "<nav"; s "<header"; s "<footer"; s "<main"].

(** One [for item in items[:8]] loop: the (passed, total) counters after it. *)
Definition check_items (html_lower : pystr) (items : list pystr) (pt : nat * nat) : nat * nat :=
  fold_left
    (fun '(passed, total) item =>
       if nonempty item && Nat.ltb 2 (length (strip item)) then
         (if contains (lower item) html_lower then S passed else passed, S total)
       else (passed, total))
    (firstn 8 items) pt.

(** [(passed_checks, total_checks)] at the [return]. *)
Definition content_checks (html : pystr) (sd : scraped) : nat * nat :=
  let html_lower := lower html in
  let td := text sd in
  let pt := check_items html_lower (headings td) (0, 0)%nat in
  let pt := check_items html_lower (buttons td) pt in
  let '(passed, total) := check_items html_lower (navigation td) pt in
  let total := (total + 2)%nat in
  let passed := if contains onclick_false html then S passed else passed in
  let passed := if existsb (fun tag => contains tag html_lower) landmark_tags
                then S passed else passed in
  (passed, total).

Definition nat_Q (n : nat) : Q := inject_Z (Z.of_nat n).

Definition simple_content_validation (html : pystr) (sd : scraped) : Q :=
  let '(passed, total) := content_checks html sd in
  nat_Q passed / nat_Q (Nat.max total 1).

(** ** Asset scorer ([_validate_smart_image_implementation]) *)

(** The code points of the class [[⚙️🔍📱💻⭐❤️🏠📧📞✓▶️◀️▲▼►◄]]. *)
Definition icon_glyphs : list N :=
  [9881; 65039; 128269; 128241; 128187; 11088; 10084; 65039; 127968; 128231;
   128222; 10003; 9654; 65039; 9664; 65039; 9650; 9660; 9658; 9668]%N.

Definition is_icon_glyph (c : N) : bool := existsb (N.eqb c) icon_glyphs.

(** [len(re.findall(r'[...]', html))] *)
Definition count_icon_glyphs (html : pystr) : nat := length (filter is_icon_glyph html).

(** The credit one priority image earns in the [for img in priority_images] loop. *)
Definition image_award (html : pystr) (img : img_data) : Q :=
  let u := actual_url img in
  let o := src (base img) in
  if nonempty u && contains u html then 1
  else if nonempty o && contains o html then 1
  else if nonempty u && negb (contains picsum u) then
    let url_parts := last_segment u in
    if nonempty url_parts && contains url_parts html then 0.8 else 0
  else 0.

Definition priority_images (imgs : list image_desc) : list img_data :=
  let c := filter_meaningful_images imgs in
  meaningful_images c ++ logos c.

Definition validate_smart_image_implementation (html : pystr) (sd : scraped) : Q :=
  match image_descriptions sd with
  | [] => 1
  | imgs =>
    match priority_images imgs with
    | [] => 1
    | prio =>
      let implemented := fold_left (fun acc img => acc + image_award html img) prio 0 in
      let unicode_icons := count_icon_glyphs html in
      let implemented :=
        if Nat.ltb 0 unicode_icons
        then implemented + py_min (nat_Q unicode_icons * 0.1) 0.5
        else implemented in
      py_min (implemented / nat_Q (length prio)) 1
    end
  end.

(** ** Normaliser ([_fix_html], [_extract_html])

    Each [re.sub] is a left-to-right scan: at a position where the pattern
    matches, the replacement is emitted and the scan resumes after the match;
    elsewhere one code point is copied. The scans run on a fuel of one step
    per code point. *)

Fixpoint index_of (c : N) (t : pystr) : option nat :=
  match t with
  | [] => None
  | c' :: t' => if N.eqb c c' then Some O
                else option_map S (index_of c t')
  end.

Definition gt_cp : N := 62%N.   (* greater-than sign *)
Definition quote_cp : N := 34%N. (* double quote *)

(** The replacement text of the link rewrite. *)
Definition disabled_href : pystr := s "href=" ++ dq ++ s "#" ++ dq ++ s " " ++ onclick_false.

(** [re.sub(r'href=Q(?!#)[^Q]*Q', 'href=Q#Q onclick=Qreturn false;Q', html)],
    writing Q for a double quote. *)
Fixpoint sub_links (fuel : nat) (t : pystr) : pystr :=
  match fuel with
  | O => t
  | S fuel' =>
    match t with
    | [] => []
    | c :: t' =>
      let open_ := s "href=" ++ dq in
      if starts_with open_ t then
        let rest := skipn (length open_) t in
        match rest with
        | 35%N :: _ => c :: sub_links fuel' t'   (* (?!#) fails *)
        | _ =>
          match index_of quote_cp rest with
          | Some k => disabled_href ++ sub_links fuel' (skipn (S k) rest)
          | None => c :: sub_links fuel' t'
          end
        end
      else c :: sub_links fuel' t'
    end
  end.

(** [re.sub(r'<TAG(?![^>]*ATTR)', '<TAG ATTRQreturn false;Q', html)]
    (Q a double quote): the lookahead finds [ATTR] before the next [>]. *)
Fixpoint sub_disable (tag attr : pystr) (fuel : nat) (t : pystr) : pystr :=
  match fuel with
  | O => t
  | S fuel' =>
    match t with
    | [] => []
    | c :: t' =>
      if starts_with tag t then
        let rest := skipn (length tag) t in
        let upto_gt := match index_of gt_cp rest with
                       | Some k => firstn k rest | None => rest end in
        if contains attr upto_gt then c :: sub_disable tag attr fuel' t'
        else tag ++ s " " ++ attr ++ dq ++ s "return false;" ++ dq
                 ++ sub_disable tag attr fuel' rest
      else c :: sub_disable tag attr fuel' t'
    end
  end.

(** [str.replace(old, new)] *)
Fixpoint replace_all (old new : pystr) (fuel : nat) (t : pystr) : pystr :=
  match fuel with
  | O => t
  | S fuel' =>
    match t with
    | [] => []
    | c :: t' =>
      if nonempty old && starts_with old t
      then new ++ replace_all old new fuel' (skipn (length old) t)
      else c :: replace_all old new fuel' t'
    end
  end.

Definition viewport_meta : pystr :=
  s "<head>" ++ [10%N] ++ s "    <meta name=" ++ dq ++ s "viewport" ++ dq
  ++ s " content=" ++ dq ++ s "width=device-width, initial-scale=1.0" ++ dq ++ s ">".

(** [re.sub(r'<img([^>]*?)(?<!loading=Q)(?<!loading=A)>', r'<img\1 loading=QlazyQ>', html)]
    (Q a double quote, A a single quote): the lazy group can only stop at
    the first [>], and both lookbehinds look at the text just before it. *)
Fixpoint sub_img (fuel : nat) (t : pystr) : pystr :=
  match fuel with
  | O => t
  | S fuel' =>
    match t with
    | [] => []
    | c :: t' =>
      if starts_with (s "<img") t then
        let rest := skipn 4 t in
        match index_of gt_cp rest with
        | Some k =>
          let group := firstn k rest in
          let before := s "<img" ++ group in
          if ends_with (s "loading=" ++ dq) before
             || ends_with (s "loading='") before
          then c :: sub_img fuel' t'
          else s "<img" ++ group ++ s " loading=" ++ dq ++ s "lazy" ++ dq ++ s ">"
                 ++ sub_img fuel' (skipn (S k) rest)
        | None => c :: sub_img fuel' t'
        end
      else c :: sub_img fuel' t'
    end
  end.

Definition fix_html (html : pystr) : pystr :=
  let html := sub_links (length html) html in
  let html := sub_disable (s "<button") (s "onclick=") (length html) html in
  let html := sub_disable (s "<form") (s "onsubmit=") (length html) html in
  let html := if contains (s "viewport") html then html
              else replace_all (s "<head>") viewport_meta (length html) html in
  sub_img (length html) html.

(** [re.sub(PAT + r'\n?', '', t)] for a literal [PAT]. *)
Fixpoint remove_fence (pat : pystr) (fuel : nat) (t : pystr) : pystr :=
  match fuel with
  | O => t
  | S fuel' =>
    match t with
    | [] => []
    | c :: t' =>
      if starts_with pat t then
        let rest := skipn (length pat) t in
        match rest with
        | 10%N :: rest' => remove_fence pat fuel' rest'
        | _ => remove_fence pat fuel' rest
        end
      else c :: remove_fence pat fuel' t'
    end
  end.

(** [re.IGNORECASE] on the ASCII letters of the two patterns. *)
Definition starts_with_ci (p t : pystr) : bool := starts_with (ascii_lower p) (ascii_lower t).

(** [re.search(OPEN + r'.*?</html>', t, re.DOTALL | re.IGNORECASE)]: the
    leftmost [OPEN], then the first [</html>] after it. *)
Fixpoint search_doc (open_ : pystr) (t : pystr) : option pystr :=
  match t with
  | [] => None
  | _ :: t' =>
    if starts_with_ci open_ t then
      let after := skipn (length open_) t in
      let close := s "</html>" in
      (fix find (n : nat) (u : pystr) : option pystr :=
         match u with
         | [] => None
         | _ :: u' => if starts_with_ci close u
                      then Some (firstn (length open_ + n + length close) t)
                      else find (S n) u'
         end) O after
    else search_doc open_ t'
  end.

Definition extract_html (response_text : pystr) : pystr :=
  let t := remove_fence (s "```html") (length response_text) response_text in
  let t := remove_fence (s "```") (length t) t in
  match search_doc (s "<!DOCTYPE html>") t with
  | Some m => fix_html (strip m)
  | None =>
    match search_doc (s "<html") t with
    | Some m => fix_html (strip m)
    | None => fix_html (strip t)
    end
  end.

(** ** The error page ([_create_error_page]) *)

Definition error_page_head : pystr :=
  s "<!DOCTYPE html>
<html>
<head>
    <title>Cloning Error</title>
    <meta name=" ++ dq ++ s "viewport" ++ dq ++ s " content=" ++ dq ++ s "width=device-width, initial-scale=1.0" ++ dq ++ s ">
    <style>
        body {
            font-family: -apple-system, BlinkMacSystemFont, 'Segoe UI', Roboto, Helvetica, Arial, sans-serif;
            margin: 0;
            padding: 40px;
            background-color: #f5f5f5;
            display: flex;
            justify-content: center;
            align-items: center;
            min-height: 100vh;
            text-align: center;
        }
        .error-container {
            background: white;
            padding: 40px;
            border-radius: 12px;
            box-shadow: 0 4px 20px rgba(0,0,0,0.1);
            max-width: 500px;
        }
        h1 {
            color: #d32f2f;
            font-size: 28px;
            margin-bottom: 20px;
        }
        p {
            color: #666;
            line-height: 1.6;
            margin-bottom: 20px;
        }
        .error-details {
            background: #f5f5f5;
            padding: 15px;
            border-radius: 8px;
            font-family: monospace;
            font-size: 14px;
            color: #333;
            text-align: left;
            overflow-x: auto;
        }
    </style>
</head>
<body>
    <div class=" ++ dq ++ s "error-container" ++ dq ++ s ">
        <h1>Website Cloning Failed</h1>
        <p>An error occurred while attempting to clone the website. This could be due to various factors including API limits, complex page structure, or network issues.</p>
        <div class=" ++ dq ++ s "error-details" ++ dq ++ s ">".

Definition error_page_tail : pystr :=
  s "</div>
        <p>Please try again or use Classic mode for more reliable results.</p>
    </div>
</body>
</html>".

Definition create_error_page (error_message : pystr) : pystr :=
  error_page_head ++ error_message ++ error_page_tail.

(** ** The refinement loop ([clone_website]) *)

(** [self.max_iterations], [self.quality_threshold] *)
Record cloner := mkCloner {
  max_iterations : nat;
  quality_threshold : Q
}.

(** [WebsiteCloner.__init__] *)
Definition default_cloner : cloner := mkCloner 3 0.85.

(** The external collaborators, one answer per call site:
    - [generate]: the raw text of the model call in [_generate_html], or the
      message of the exception it raises ([inl]);
    - [refine i html v]: the raw text of the model call in [_simple_refine]
      at iteration [i] on the current markup and visual score, [None] if it raises;
    - [render_compare i html]: [compare_base64_images(original_screenshot,
      await render_generated_html(html))] at iteration [i], [None] if
      rendering or the comparison raises (for example on malformed image data);
    - [final_render_compare html]: the same for the final assessment. *)
Record env := mkEnv {
  generate : pystr + pystr;
  refine : nat -> pystr -> Q -> option pystr;
  render_compare : nat -> pystr -> option Q;
  final_render_compare : pystr -> option Q
}.

(** One entry of [iteration_results]. *)
Record iteration_result := mkIterationResult {
  iteration : nat;
  visual_similarity : Q;
  content_score : Q;
  smart_image_score : Q;
  combined_score : Q
}.

(** The local variables the loop updates. *)
Record loop_state := mkLoopState {
  html_content : pystr;
  best_html : pystr;
  best_similarity : Q;
  iteration_results : list iteration_result
}.

(** [html_content = best_html; break] *)
Definition revert (st : loop_state) : loop_state :=
  mkLoopState (best_html st) (best_html st) (best_similarity st) (iteration_results st).

Section Loop.

Variable cfg : cloner.
Variable e : env.
Variable sd : scraped.
Variable initial_content_score : Q.

(** [for iteration in range(it, self.max_iterations + 1)], [fuel] being the
    number of iterations left; the [try]/[except] around the body reverts to
    [best_html] and breaks when a collaborator raises. *)
Fixpoint refinement_loop (fuel : nat) (it : nat) (st : loop_state) : loop_state :=
  match fuel with
  | O => st
  | S fuel' =>
    let html := html_content st in
    match render_compare e it html with
    | None => revert st
    | Some visual =>
      let content := simple_content_validation html sd in
      let image := validate_smart_image_implementation html sd in
      let combined := visual * 0.6 + content * 0.3 + image * 0.1 in
      let '(bh, bs) := if Qlt_bool (best_similarity st) combined
                       then (html, combined)
                       else (best_html st, best_similarity st) in
      let results := iteration_results st
                     ++ [mkIterationResult it visual content image combined] in
      let st := mkLoopState html bh bs results in
      if Qle_bool (quality_threshold cfg) visual && Qlt_bool 0.7 image then st
      else if Qlt_bool content (initial_content_score * 0.8) then revert st
      else if Nat.ltb it (max_iterations cfg) then
        match refine e it html visual with
        | None => revert st
        | Some raw =>
          refinement_loop fuel' (S it)
            (mkLoopState (extract_html raw) bh bs results)
        end
      else refinement_loop fuel' (S it) st
    end
  end.

End Loop.

(** The dictionary [clone_website] returns: on success [html],
    [visual_similarity], [content_completeness] (also reported as
    [scraper_data_utilization]), [smart_image_score] and [iterations];
    on failure [error] and [html]. *)
Inductive clone_result :=
| CloneOk (html : pystr) (visual content image : Q) (iterations : nat)
| CloneFailed (error : pystr) (html : pystr).

Definition result_success (r : clone_result) : bool :=
  match r with CloneOk _ _ _ _ _ => true | CloneFailed _ _ => false end.

Definition result_html (r : clone_result) : pystr :=
  match r with CloneOk h _ _ _ _ => h | CloneFailed _ h => h end.

(** The state the loop ends in, from the initial markup [h]. *)
Definition run_loop (cfg : cloner) (e : env) (sd : scraped) (h : pystr) : loop_state :=
  refinement_loop cfg e sd (simple_content_validation h sd)
    (max_iterations cfg) 1 (mkLoopState h h 0 []).

Definition clone_website (cfg : cloner) (e : env) (sd : scraped) : clone_result :=
  if negb (nonempty (original_screenshot sd)) then
    let msg := s "No screenshot data available" in
    CloneFailed msg (create_error_page msg)
  else
    match generate e with
    | inl msg => CloneFailed msg (create_error_page msg)
    | inr raw =>
      let html_content := extract_html raw in
      let initial_content_score := simple_content_validation html_content sd in
      let initial_image_score := validate_smart_image_implementation html_content sd in
      let st := run_loop cfg e sd html_content in
      let final_html := best_html st in
      let iterations := length (iteration_results st) in
      match final_render_compare e final_html with
      | Some final_similarity =>
        CloneOk final_html final_similarity
          (simple_content_validation final_html sd)
          (validate_smart_image_implementation final_html sd) iterations
      | None =>
        CloneOk final_html (best_similarity st) initial_content_score
          initial_image_score iterations
      end
    end.

End Lower.

(** ** The refinement prompt ([create_simple_refinement_prompt]) *)

(** The code points of the class [[⚙️🔍📱💻⭐❤️🏠📧📞✓]] the prompt counts. *)
Definition prompt_glyphs : list N :=
  [9881; 65039; 128269; 128241; 128187; 11088; 10084; 65039; 127968; 128231;
   128222; 10003]%N.

Definition is_prompt_glyph (c : N) : bool := existsb (N.eqb c) prompt_glyphs.

(** [t.count(p)] for a non-empty [p]: the non-overlapping occurrences,
    found left to right. *)
Fixpoint count_sub (p : pystr) (fuel : nat) (t : pystr) : nat :=
  match fuel with
  | O => O
  | S fuel' =>
    match t with
    | [] => O
    | _ :: t' =>
      if nonempty p && starts_with p t
      then S (count_sub p fuel' (skipn (length p) t))
      else count_sub p fuel' t'
    end
  end.

(** [str(n)] for a natural number. *)
Definition nat_str (n : nat) : pystr := uint_digits (Nat.to_uint n).

(** The fixed pieces of the two f-strings. *)
Definition good_prompt_head : pystr :=
  s "The visual similarity is good (".

Definition good_prompt_body : pystr :=
  s "). Make only minor improvements:

1. Fine-tune logo and meaningful image positioning
2. Improve hover effects and transitions  
3. Adjust colors and spacing to better match screenshot
4. Ensure logos and main images are prominently displayed
5. Verify all image URLs are the actual ones from the website
6. Fine-tune typography:
   "
  ++ [8226%N]
  ++ s " Verify font families match exactly
   "
  ++ [8226%N]
  ++ s " Check if web fonts are loading properly
   "
  ++ [8226%N]
  ++ s " Adjust font weights and sizes

CRITICAL: Keep ALL existing content and important images exactly as they are.
Only improve styling and positioning.

Current HTML:
".

Definition good_prompt_tail : pystr :=
  s "

Return improved version with better styling but identical content and smart image handling.".

Definition low_prompt_head : pystr :=
  s "Visual similarity is low (".

Definition low_prompt_found : pystr :=
  s "). Focus on SMART image improvements:

PRIORITY FIXES:
1. SMART IMAGE STRATEGY: Found ".

Definition low_prompt_tags : pystr :=
  s " <img> tags, ".

Definition low_prompt_body : pystr :=
  s " Unicode icons
   "
  ++ [8226%N]
  ++ s " Ensure logos and meaningful images ("
  ++ [8805%N]
  ++ s "100px) use <img> tags with ACTUAL URLs from the website
   "
  ++ [8226%N]
  ++ s " Replace tiny icons with Unicode symbols: "
  ++ [9881%N; 65039%N]
  ++ s " "
  ++ [128269%N]
  ++ s " "
  ++ [128241%N]
  ++ s " "
  ++ [128187%N]
  ++ s " "
  ++ [11088%N]
  ++ s " "
  ++ [10084%N; 65039%N]
  ++ s " "
  ++ [127968%N]
  ++ s " "
  ++ [128231%N]
  ++ s " "
  ++ [128222%N]
  ++ s " "
  ++ [10003%N]
  ++ s "
   "
  ++ [8226%N]
  ++ s " Verify all image URLs are the original ones, not placeholders
   "
  ++ [8226%N]
  ++ s " Focus on quality over quantity - fewer perfect images is better

2. LAYOUT IMPROVEMENTS:
   "
  ++ [8226%N]
  ++ s " Better CSS Grid/Flexbox implementation
   "
  ++ [8226%N]
  ++ s " Improve spacing and positioning
   "
  ++ [8226%N]
  ++ s " Make logos more prominent in header

3. STYLING:
   "
  ++ [8226%N]
  ++ s " Better color scheme matching
   "
  ++ [8226%N]
  ++ s " Improved typography and spacing
   "
  ++ [8226%N]
  ++ s " More accurate visual recreation

CRITICAL: Keep ALL existing text content exactly as it is.
Focus on smart image handling and visual layout.

Current HTML:
".

Definition low_prompt_tail : pystr :=
  s "

Return improved version with SMART image strategy and better styling.".

Section Prompt.

(** [format(visual_similarity, '.3f')] *)
Variable fmt3 : Q -> pystr.

Definition create_simple_refinement_prompt (current_html : pystr)
    (visual_similarity : Q) (iteration : nat) : pystr :=
  if Qlt_bool 0.8 visual_similarity then
    good_prompt_head ++ fmt3 visual_similarity ++ good_prompt_body
    ++ current_html ++ good_prompt_tail
  else
    let img_count := count_sub (s "<img") (length current_html) current_html in
    let unicode_count := length (filter is_prompt_glyph current_html) in
    low_prompt_head ++ fmt3 visual_similarity ++ low_prompt_found
    ++ nat_str img_count ++ low_prompt_tags ++ nat_str unicode_count
    ++ low_prompt_body ++ current_html ++ low_prompt_tail.

End Prompt.

(** ** Concrete inputs for the runs below *)

Module Runs.

Definition shot : pystr := s "iVBORw0KGgoAAAANSUhEUgAA".

(** A 200x200 image below the fold: a content image. *)
Definition hero_image : image_desc :=
  mkImage 200 200 (s "https://cdn.example.com/img/hero.png") [] [] 500.

(** A page whose initial markup keeps its navigation label and a link. *)
Definition raw_nav : pystr :=
  s "<html><body><nav><a href=" ++ dq ++ s "/about" ++ dq ++ s ">About</a></nav></body></html>".

Definition sd_hero : scraped := mkScraped shot [] (mkText [] [] []) [hero_image].

Definition sd_plain : scraped := mkScraped shot [] (mkText [] [] []) [].

(** Iteration 1 scores the initial markup at 0.1, the refinement loses
    all content and iteration 2 scores it at 0.8. *)
Definition env_regress : env :=
  mkEnv (inr raw_nav) (fun _ _ _ => Some (s "plain"))
        (fun i _ => if Nat.eqb i 1 then Some 0.1 else Some 0.8)
        (fun _ => Some 0.8).

(** Rendering fails at iteration 1 and works afterwards. *)
Definition env_render_fails : env :=
  mkEnv (inr raw_nav) (fun _ _ _ => Some raw_nav)
        (fun i _ => if Nat.eqb i 1 then None else Some 0)
        (fun _ => Some 0.5).

(** The same run with the failing call scored as 0. *)
Definition env_render_zero : env :=
  mkEnv (inr raw_nav) (fun _ _ _ => Some raw_nav)
        (fun _ _ => Some 0)
        (fun _ => Some 0.5).

(** The generator answers with an empty text. *)
Definition env_empty : env :=
  mkEnv (inr []) (fun _ _ _ => Some []) (fun _ _ => Some 0) (fun _ => Some 0).

(** Iteration 1 is good enough: visual 0.9. *)
Definition env_accept : env :=
  mkEnv (inr raw_nav) (fun _ _ _ => Some raw_nav) (fun _ _ => Some 0.9) (fun _ => Some 0.9).

(** The final re-score fails. *)
Definition env_final_fails : env :=
  mkEnv (inr raw_nav) (fun _ _ _ => Some raw_nav) (fun _ _ => Some 0.5) (fun _ => None).

Definition small_icon : image_desc := mkImage 10 10 (s "a.png") [] [] 0.
Definition larger_icon : image_desc := mkImage 20 20 (s "b.png") [] [] 0.

Definition img_tag : pystr := s "<img src=x>".

End Runs.

(** ** Auxiliary definitions for the statements *)

(** [x] comes before [y] in a list sorted by descending area. *)
Definition desc_area (x y : img_data) : Prop := area y <= area x.

(** The early-accept test of the loop. *)
Definition accepts (cfg : cloner) (r : iteration_result) : Prop :=
  quality_threshold cfg <= visual_similarity r /\ 0.7 < smart_image_score r.

Definition tier_eqb (a b : tier) : bool :=
  match a, b with
  | Icon, Icon | Logo, Logo | Content, Content => true
  | _, _ => false
  end.

Definition has_tier (t : tier) (d : img_data) : bool := tier_eqb t (suggested_type d).

(** The markup [h] is the normalised answer of one of the generator calls. *)
Definition produced (e : env) (h : pystr) : Prop :=
  exists raw, (generate e = inr raw \/ exists i h' v, refine e i h' v = Some raw)
              /\ h = extract_html raw.

(** The [implemented_images] sum before the glyph bonus. *)
Definition award_sum (html : pystr) (l : list img_data) (a : Q) : Q :=
  fold_left (fun acc img => acc + image_award html img) l a.

(** [implemented_images] after the glyph bonus. *)
Definition icon_bonus (html : pystr) (x : Q) : Q :=
  if Nat.ltb 0 (count_icon_glyphs html)
  then x + py_min (nat_Q (count_icon_glyphs html) * 0.1) 0.5
  else x.

(** The two tests after which the loop stops on its own: the early accept
    and the content-regression guard, [ics] being the initial content score. *)
Definition halts (cfg : cloner) (ics : Q) (r : iteration_result) : Prop :=
  accepts cfg r \/ content_score r < ics * 0.8.

(** The test an item of the inventory passes to be counted by the content
    scorer: [item and len(item.strip()) > 2]. *)
Definition counted_item (item : pystr) : bool :=
  nonempty item && Nat.ltb 2 (length (strip item)).


(** The images of area [q]. *)
Definition same_area (q : Q) (d : img_data) : bool := Qeq_bool (area d) q.

(** * Properties *)

Import Runs.


(** C1 (regression guard). On the run [env_regress], iteration 2 scores
    content 0, below 0.8 times the initial content score 1; the loop stops
    there, but the best-so-far markup was already replaced by the markup of
    iteration 2 (its combined score 0.48 beats 0.36), so [clone_website]
    returns the regressed markup, not the initial one. *)
Example regression_guard_returns_regressed_markup :
  let h0 := extract_html raw_nav in
  let st := run_loop ascii_lower default_cloner env_regress sd_hero h0 in
  map content_score (iteration_results st) = [2 # 2; 0 # 2]
  /\ (0 # 2) < 0.8 * simple_content_validation ascii_lower h0 sd_hero
  /\ length (iteration_results st) = 2%nat
  /\ result_html (clone_website ascii_lower default_cloner env_regress sd_hero)
     = extract_html (s "plain")
  /\ extract_html (s "plain") <> h0.
Proof.
  vm_compute. repeat split; try reflexivity. discriminate.
Qed.

(** C3 (counterexample). When the generator answers with an empty text the
    session succeeds and its [html] is empty. *)
Example empty_generation_gives_empty_html :
  result_success (clone_website ascii_lower default_cloner env_empty sd_plain) = true
  /\ result_html (clone_website ascii_lower default_cloner env_empty sd_plain) = [].
Proof. vm_compute. split; reflexivity. Qed.

(** C4 (counterexample). A rendering failure at iteration 1 is not treated
    as a zero score: the run differs from the one where that call returns 0
    (the loop stops with 0 recorded iterations instead of running all 3). *)
Example render_failure_not_zero_score :
  clone_website ascii_lower default_cloner env_render_fails sd_plain
  <> clone_website ascii_lower default_cloner env_render_zero sd_plain.
Proof. vm_compute. discriminate. Qed.

(** C5 (_fix_html idempotence). Normalising [<img src=x>] twice adds a
    second [loading] attribute: the lookbehind tests the text just before
    [>], which after the first pass ends with [lazy] and a quote, not with
    [loading=] and a quote. *)
Example fix_html_img_not_idempotent :
  fix_html img_tag = s "<img src=x loading=" ++ dq ++ s "lazy" ++ dq ++ s ">"
  /\ fix_html (fix_html img_tag)
     = s "<img src=x loading=" ++ dq ++ s "lazy" ++ dq ++ s " loading=" ++ dq ++ s "lazy"
       ++ dq ++ s ">"
  /\ fix_html (fix_html img_tag) <> fix_html img_tag.
Proof. vm_compute. repeat split; try reflexivity. discriminate. Qed.

(** C6 (counterexample). The icon tier keeps input order: two icons of
    areas 100 and 400 come out in that order, not by descending area. *)
Example icon_tier_not_sorted :
  ~ Sorted desc_area (tiny_icons (filter_meaningful_images ascii_lower [small_icon; larger_icon])).
Proof.
  vm_compute. intro H. inversion H as [|x l Hs Hd]. inversion Hd as [|y l' Hle].
  apply Hle. reflexivity.
Qed.

(** C9 (final re-score fallback). When the final re-score fails, the
    result field for visual similarity gets [best_similarity], the best
    combined score 0.7, although every scored iteration had visual
    similarity 0.5: the fallback is not a last known visual score. *)
Example final_fallback_reports_combined_score :
  map visual_similarity
      (iteration_results (run_loop ascii_lower default_cloner env_final_fails sd_plain
                            (extract_html raw_nav))) = [0.5; 0.5; 0.5]
  /\ match clone_website ascii_lower default_cloner env_final_fails sd_plain with
     | CloneOk _ v _ _ _ => v == 0.7 /\ ~ v == 0.5
     | CloneFailed _ _ => False
     end.
Proof. vm_compute. repeat split; try reflexivity. discriminate. Qed.

(** ** Content scorer *)

Lemma check_items_counts (lower : pystr -> pystr) (hl : pystr) (items : list pystr) (p t : nat) :
  (p <= t)%nat ->
  (fst (check_items lower hl items (p, t)) <= snd (check_items lower hl items (p, t)))%nat.
Proof.
  unfold check_items. generalize (firstn 8 items) as l. intros l.
  revert p t. induction l as [|x l IH]; intros p t Hpt; simpl; [exact Hpt|].
  destruct (nonempty x && Nat.ltb 2 (length (strip x))); [|apply IH; exact Hpt].
  destruct (contains (lower x) hl); apply IH; lia.
Qed.

Lemma nat_Q_le (m n : nat) : (m <= n)%nat -> nat_Q m <= nat_Q n.
Proof. intro H. unfold nat_Q. rewrite <- Zle_Qle. lia. Qed.

Lemma nat_Q_nonneg (n : nat) : 0 <= nat_Q n.
Proof. apply (nat_Q_le 0). lia. Qed.

Lemma nat_Q_pos (n : nat) : (0 < n)%nat -> 0 < nat_Q n.
Proof. intro H. unfold nat_Q. change 0 with (inject_Z 0). rewrite <- Zlt_Qlt. lia. Qed.

(** C8 (content scorer safety). For every candidate and every inventory,
    the empty one included, the checklist has at least the two structural
    checks, the passed checks never exceed them, the score is
    passed/total (the [max(total_checks, 1)] guard never fires) and lies in
    [0, 1]. *)
Theorem content_score_well_defined (lower : pystr -> pystr) (html : pystr) (sd : scraped) :
  let pt := content_checks lower html sd in
  (2 <= snd pt)%nat /\ (fst pt <= snd pt)%nat
  /\ simple_content_validation lower html sd = nat_Q (fst pt) / nat_Q (snd pt)
  /\ 0 <= simple_content_validation lower html sd
  /\ simple_content_validation lower html sd <= 1.
Proof.
  unfold simple_content_validation, content_checks. cbv zeta.
  set (hl := lower html).
  set (pt1 := check_items lower hl (headings (text sd)) (0, 0)%nat).
  assert (H1 : (fst pt1 <= snd pt1)%nat) by (apply check_items_counts; lia).
  destruct pt1 as [p1 t1] eqn:E1.
  set (pt2 := check_items lower hl (buttons (text sd)) (p1, t1)).
  assert (H2 : (fst pt2 <= snd pt2)%nat) by (apply check_items_counts; exact H1).
  destruct pt2 as [p2 t2] eqn:E2.
  set (pt3 := check_items lower hl (navigation (text sd)) (p2, t2)).
  assert (H3 : (fst pt3 <= snd pt3)%nat) by (apply check_items_counts; exact H2).
  destruct pt3 as [p3 t3] eqn:E3. simpl in H3.
  set (p4 := if contains onclick_false html then S p3 else p3).
  set (p5 := if existsb (fun tag => contains tag hl) landmark_tags then S p4 else p4).
  assert (Hp5 : (p5 <= t3 + 2)%nat).
  { unfold p5, p4. destruct (contains onclick_false html), (existsb _ _); lia. }
  simpl fst; simpl snd.
  assert (Hmax : Nat.max (t3 + 2) 1 = (t3 + 2)%nat) by lia.
  rewrite Hmax.
  assert (Hpos : 0 < nat_Q (t3 + 2)) by (apply nat_Q_pos; lia).
  repeat split; try lia.
  - apply Qle_shift_div_l; [exact Hpos|]. rewrite Qmult_0_l. apply nat_Q_nonneg.
  - apply Qle_shift_div_r; [exact Hpos|]. rewrite Qmult_1_l. apply nat_Q_le. exact Hp5.
Qed.

(** ** The refinement loop *)


Lemma Qlt_bool_iff (a b : Q) : Qlt_bool a b = true <-> a < b.
Proof.
  unfold Qlt_bool. rewrite negb_true_iff. split.
  - intro H. apply Qnot_le_lt. intro H'. apply Qle_bool_iff in H'. congruence.
  - intro H. destruct (Qle_bool b a) eqn:E; [|reflexivity].
    apply Qle_bool_iff in E. exfalso. apply (Qlt_not_le a b H E).
Qed.

Lemma nth_error_app_last {A} (l : list A) (x y : A) (i : nat) :
  (length l <= i)%nat -> nth_error (l ++ [x]) i = Some y -> i = length l /\ y = x.
Proof.
  intros Hle H. assert (Hlt : (i < length (l ++ [x]))%nat).
  { apply nth_error_Some. rewrite H. discriminate. }
  rewrite length_app in Hlt. simpl in Hlt.
  assert (i = length l) by lia. subst i. split; [reflexivity|].
  rewrite nth_error_app2 in H by lia. rewrite Nat.sub_diag in H. simpl in H. congruence.
Qed.

Lemma accepts_bool (cfg : cloner) (r : iteration_result) :
  accepts cfg r ->
  (Qle_bool (quality_threshold cfg) (visual_similarity r)
   && Qlt_bool 0.7 (smart_image_score r)) = true.
Proof.
  intros [H1 H2]. apply andb_true_iff. split.
  - apply Qle_bool_iff. exact H1.
  - apply Qlt_bool_iff. exact H2.
Qed.

(** The loop only appends to [iteration_results], and among the records it
    appends only the last one can pass the acceptance test. *)
Lemma loop_appends_accept_last (lower : pystr -> pystr) (cfg : cloner) (e : env)
    (sd : scraped) (ics : Q) (fuel it : nat) (st : loop_state) :
  exists new,
    iteration_results (refinement_loop lower cfg e sd ics fuel it st)
    = iteration_results st ++ new
    /\ forall j r, nth_error new j = Some r -> accepts cfg r -> length new = S j.
Proof.
  revert it st. induction fuel as [|fuel IH]; intros it st; simpl.
  - exists []. split; [symmetry; apply app_nil_r|]. intros [|j] r H; discriminate.
  - destruct (render_compare e it (html_content st)) as [visual|] eqn:Er.
    2:{ exists []. split; [symmetry; apply app_nil_r|]. intros [|j] r H; discriminate. }
    set (content := simple_content_validation lower (html_content st) sd).
    set (image := validate_smart_image_implementation lower (html_content st) sd).
    set (rec := mkIterationResult it visual content image
                  (visual * 0.6 + content * 0.3 + image * 0.1)).
    destruct (if Qlt_bool (best_similarity st) (visual * 0.6 + content * 0.3 + image * 0.1)
              then (html_content st, visual * 0.6 + content * 0.3 + image * 0.1)
              else (best_html st, best_similarity st)) as [bh bs].
    (* [rec] alone: it is the last record whether or not it passes *)
    assert (Hone : forall j r, nth_error [rec] j = Some r -> accepts cfg r -> length [rec] = S j).
    { intros [|[|j]] r H _; try discriminate; reflexivity. }
    destruct (Qle_bool (quality_threshold cfg) visual && Qlt_bool 0.7 image) eqn:Eacc.
    + exists [rec]. split; [reflexivity|exact Hone].
    + (* from here on [rec] fails the test *)
      assert (Hrec : forall r, r = rec -> accepts cfg r -> False).
      { intros r -> Ha. apply accepts_bool in Ha. simpl in Ha. congruence. }
      assert (Hcons : forall new, (forall j r, nth_error new j = Some r -> accepts cfg r ->
                                       length new = S j) ->
                      forall j r, nth_error (rec :: new) j = Some r -> accepts cfg r ->
                      length (rec :: new) = S j).
      { intros new Hnew [|j] r Hn Ha; simpl in Hn.
        - injection Hn as <-. exfalso. exact (Hrec rec eq_refl Ha).
        - simpl. f_equal. exact (Hnew j r Hn Ha). }
      destruct (Qlt_bool content (ics * 0.8)).
      { exists [rec]. split; [reflexivity|exact Hone]. }
      destruct (Nat.ltb it (max_iterations cfg)).
      * destruct (refine e it (html_content st) visual) as [raw|].
        -- destruct (IH (S it) (mkLoopState (extract_html raw) bh bs
                                 (iteration_results st ++ [rec]))) as [new [Heq Hnew]].
           exists (rec :: new). split.
           ++ rewrite Heq. simpl. rewrite <- app_assoc. reflexivity.
           ++ apply Hcons. exact Hnew.
        -- exists [rec]. split; [reflexivity|exact Hone].
      * destruct (IH (S it) (mkLoopState (html_content st) bh bs
                               (iteration_results st ++ [rec]))) as [new [Heq Hnew]].
        exists (rec :: new). split.
        -- rewrite Heq. simpl. rewrite <- app_assoc. reflexivity.
        -- apply Hcons. exact Hnew.
Qed.

(** C2 (early accept). Whatever [max_iterations] and [quality_threshold]
    are: once the record of an iteration has visual score at least the
    threshold and asset score above 0.7, it is the last record, so the loop
    runs no iteration after it (and [clone_website] reports that many
    iterations). *)
Theorem early_accept_stops_loop (lower : pystr -> pystr) (cfg : cloner) (e : env)
    (sd : scraped) (h : pystr) (i : nat) (r : iteration_result)
    (Hnth : nth_error (iteration_results (run_loop lower cfg e sd h)) i = Some r)
    (Hvis : quality_threshold cfg <= visual_similarity r)
    (Himg : 0.7 < smart_image_score r) :
  length (iteration_results (run_loop lower cfg e sd h)) = S i.
Proof.
  unfold run_loop in *.
  destruct (loop_appends_accept_last lower cfg e sd (simple_content_validation lower h sd)
              (max_iterations cfg) 1 (mkLoopState h h 0 [])) as [new [Heq Hnew]].
  simpl in Heq. rewrite Heq in *. apply (Hnew i r Hnth). split; assumption.
Qed.

Lemma early_accept_stops_loop_witness :
  length (iteration_results
            (run_loop ascii_lower default_cloner env_accept sd_plain (extract_html raw_nav)))
  = 1%nat.
Proof.
  apply (early_accept_stops_loop ascii_lower default_cloner env_accept sd_plain
           (extract_html raw_nav) 0
           (mkIterationResult 1 0.9 (2 # 2) 1 (0.9 * 0.6 + (2 # 2) * 0.3 + 1 * 0.1))).
  - vm_compute. reflexivity.
  - apply Qle_bool_iff. reflexivity.
  - apply Qlt_bool_iff. reflexivity.
Defined.

(** ** The classifier *)



Lemma fold_partition_step (lower : pystr -> pystr) (imgs : list image_desc)
    (m l t : list img_data) :
  fold_left (partition_step lower) imgs (mkCategories m l t)
  = mkCategories (m ++ filter (has_tier Content) (map (annotate lower) imgs))
                 (l ++ filter (has_tier Logo) (map (annotate lower) imgs))
                 (t ++ filter (has_tier Icon) (map (annotate lower) imgs)).
Proof.
  revert m l t. induction imgs as [|img imgs IH]; intros m l t; simpl.
  - rewrite !app_nil_r. reflexivity.
  - unfold partition_step at 2. simpl.
    destruct (tier_of lower img) eqn:E; simpl; rewrite IH; simpl; rewrite <- !app_assoc;
      reflexivity.
Qed.

Lemma filter_tiers_perm (l : list img_data) :
  Permutation (filter (has_tier Content) l ++ filter (has_tier Logo) l
               ++ filter (has_tier Icon) l) l.
Proof.
  induction l as [|d l IH]; simpl; [constructor|].
  unfold has_tier at 1 3 5. destruct (suggested_type d); simpl.
  - rewrite app_assoc. apply Permutation_sym. apply Permutation_cons_app.
    rewrite <- app_assoc. apply Permutation_sym. exact IH.
  - apply Permutation_sym. apply Permutation_cons_app. apply Permutation_sym. exact IH.
  - constructor. exact IH.
Qed.

Lemma insert_desc_perm (x : img_data) (l : list img_data) :
  Permutation (insert_desc x l) (x :: l).
Proof.
  induction l as [|y l IH]; simpl; [constructor; constructor|].
  destruct (Qlt_bool (area y) (area x)); [reflexivity|].
  eapply perm_trans; [apply perm_skip; exact IH|]. apply perm_swap.
Qed.

Lemma insert_desc_hdrel (x y : img_data) (l : list img_data) :
  HdRel desc_area y l -> desc_area y x -> HdRel desc_area y (insert_desc x l).
Proof.
  intros Hd Hyx. destruct l as [|z l]; simpl.
  - constructor. exact Hyx.
  - destruct (Qlt_bool (area z) (area x)); constructor; [exact Hyx|].
    inversion Hd. assumption.
Qed.

Lemma insert_desc_sorted (x : img_data) (l : list img_data) :
  Sorted desc_area l -> Sorted desc_area (insert_desc x l).
Proof.
  induction l as [|y l IH]; intro Hs; simpl.
  - repeat constructor.
  - destruct (Qlt_bool (area y) (area x)) eqn:E.
    + constructor; [exact Hs|]. constructor. apply Qlt_bool_iff in E.
      unfold desc_area. apply Qlt_le_weak. exact E.
    + inversion Hs as [|y' l' Hl Hd]. subst. constructor; [apply IH; exact Hl|].
      apply insert_desc_hdrel; [exact Hd|]. unfold desc_area. apply Qnot_lt_le.
      intro H. apply Qlt_bool_iff in H. congruence.
Qed.

Lemma sort_fold_perm_sorted (l acc : list img_data) :
  Sorted desc_area acc ->
  Permutation (fold_left (fun acc x => insert_desc x acc) l acc) (l ++ acc)
  /\ Sorted desc_area (fold_left (fun acc x => insert_desc x acc) l acc).
Proof.
  revert acc. induction l as [|x l IH]; intros acc Hs; simpl; [split; [reflexivity|exact Hs]|].
  destruct (IH (insert_desc x acc)) as [Hp Hs']; [apply insert_desc_sorted; exact Hs|].
  split; [|exact Hs'].
  eapply perm_trans; [exact Hp|]. eapply perm_trans.
  - apply Permutation_app_head. apply insert_desc_perm.
  - apply Permutation_sym. apply Permutation_middle.
Qed.

Lemma sort_by_area_desc_spec (l : list img_data) :
  Permutation (sort_by_area_desc l) l /\ Sorted desc_area (sort_by_area_desc l).
Proof.
  unfold sort_by_area_desc. destruct (sort_fold_perm_sorted l [] (Sorted_nil _)) as [Hp Hs].
  rewrite app_nil_r in Hp. split; assumption.
Qed.

Lemma filter_meaningful_images_eq (lower : pystr -> pystr) (imgs : list image_desc) :
  filter_meaningful_images lower imgs
  = mkCategories (sort_by_area_desc (filter (has_tier Content) (map (annotate lower) imgs)))
                 (sort_by_area_desc (filter (has_tier Logo) (map (annotate lower) imgs)))
                 (filter (has_tier Icon) (map (annotate lower) imgs)).
Proof. unfold filter_meaningful_images. rewrite fold_partition_step. reflexivity. Qed.

Lemma filter_all_false {A} (f : A -> bool) (l : list A) :
  (forall z, In z l -> f z = false) -> filter f l = [].
Proof.
  induction l as [|z l IH]; intro H; simpl; [reflexivity|].
  rewrite (H z (or_introl eq_refl)). apply IH. intros w Hw. apply H. right. exact Hw.
Qed.

Lemma desc_area_trans : Transitive desc_area.
Proof. intros x y z Hxy Hyz. unfold desc_area in *. eapply Qle_trans; eassumption. Qed.

Lemma insert_desc_filter (q : Q) (x : img_data) (l : list img_data) :
  Sorted desc_area l ->
  filter (same_area q) (insert_desc x l) = filter (same_area q) l ++ filter (same_area q) [x].
Proof.
  induction l as [|y l IH]; intro Hs; [reflexivity|]. simpl insert_desc.
  destruct (Qlt_bool (area y) (area x)) eqn:E.
  - apply Qlt_bool_iff in E.
    destruct (same_area q x) eqn:Ex.
    + assert (Hall : forall z, In z (y :: l) -> same_area q z = false).
      { apply Sorted_StronglySorted in Hs; [|exact desc_area_trans].
        inversion Hs as [|y' l' Hl Hf]. subst.
        intros z Hz. unfold same_area in *. apply Qeq_bool_iff in Ex.
        destruct (Qeq_bool (area z) q) eqn:Ez; [|reflexivity].
        apply Qeq_bool_iff in Ez. exfalso.
        assert (Hzy : area z <= area y).
        { destruct Hz as [<-|Hz]; [apply Qle_refl|].
          rewrite Forall_forall in Hf. exact (Hf z Hz). }
        rewrite Ez, <- Ex in Hzy. apply (Qlt_not_le _ _ E Hzy). }
      change (filter (same_area q) (x :: y :: l))
        with (if same_area q x then x :: filter (same_area q) (y :: l)
              else filter (same_area q) (y :: l)).
      rewrite Ex, (filter_all_false _ (y :: l) Hall). simpl. rewrite Ex. reflexivity.
    + change (filter (same_area q) (x :: y :: l))
        with (if same_area q x then x :: filter (same_area q) (y :: l)
              else filter (same_area q) (y :: l)).
      rewrite Ex. simpl. rewrite Ex, app_nil_r. reflexivity.
  - simpl. apply Sorted_inv in Hs. destruct Hs as [Hs _].
    destruct (same_area q y); simpl; rewrite IH by exact Hs; reflexivity.
Qed.

Lemma sort_fold_filter (q : Q) (l acc : list img_data) :
  Sorted desc_area acc ->
  filter (same_area q) (fold_left (fun acc x => insert_desc x acc) l acc)
  = filter (same_area q) acc ++ filter (same_area q) l.
Proof.
  revert acc. induction l as [|x l IH]; intros acc Hs; simpl; [rewrite app_nil_r; reflexivity|].
  rewrite IH by (apply insert_desc_sorted; exact Hs).
  rewrite insert_desc_filter by exact Hs. rewrite <- app_assoc. simpl.
  destruct (same_area q x); reflexivity.
Qed.

(** Filtering a sorted result by one area gives the images of that area in
    input order. *)
Lemma sort_by_area_desc_stable (q : Q) (l : list img_data) :
  filter (same_area q) (sort_by_area_desc l) = filter (same_area q) l.
Proof. unfold sort_by_area_desc. rewrite sort_fold_filter by constructor. reflexivity. Qed.

(** C6 (classifier contract, as the code has it). The classifier is a
    function of its input (deterministic). Each tier holds exactly the
    annotated images of that tier, so together the three lists are a
    rearrangement of the input (every image in exactly one tier); an image
    of at most 32x32 is an icon; the logo and content lists are sorted by
    descending area, and the sort is stable: images of equal area keep
    their input order; the icon list keeps the input order. *)
Theorem classify_contract (lower : pystr -> pystr) (imgs : list image_desc) :
  let c := filter_meaningful_images lower imgs in
  let ds := map (annotate lower) imgs in
  Permutation (meaningful_images c) (filter (has_tier Content) ds)
  /\ Permutation (logos c) (filter (has_tier Logo) ds)
  /\ tiny_icons c = filter (has_tier Icon) ds
  /\ Permutation (meaningful_images c ++ logos c ++ tiny_icons c) ds
  /\ (forall img, In img imgs -> width img <= 32 -> height img <= 32 ->
        suggested_type (annotate lower img) = Icon /\ In (annotate lower img) (tiny_icons c))
  /\ Sorted desc_area (logos c)
  /\ Sorted desc_area (meaningful_images c)
  /\ (forall q, filter (same_area q) (logos c) = filter (same_area q) (filter (has_tier Logo) ds))
  /\ (forall q, filter (same_area q) (meaningful_images c)
                = filter (same_area q) (filter (has_tier Content) ds)).
Proof.
  cbv zeta. rewrite filter_meaningful_images_eq. simpl.
  set (ds := map (annotate lower) imgs).
  destruct (sort_by_area_desc_spec (filter (has_tier Content) ds)) as [Hpc Hsc].
  destruct (sort_by_area_desc_spec (filter (has_tier Logo) ds)) as [Hpl Hsl].
  assert (Hicon : forall img, width img <= 32 -> height img <= 32 ->
                  suggested_type (annotate lower img) = Icon).
  { intros img Hw Hh. simpl. unfold tier_of.
    apply Qle_bool_iff in Hw. apply Qle_bool_iff in Hh. rewrite Hw, Hh. reflexivity. }
  split; [exact Hpc|]. split; [exact Hpl|]. split; [reflexivity|]. split.
  { eapply perm_trans; [|apply filter_tiers_perm].
    apply Permutation_app; [exact Hpc|]. apply Permutation_app; [exact Hpl|reflexivity]. }
  split; [|split; [assumption|split; [assumption|split]]];
    [|intro q; apply sort_by_area_desc_stable..].
  intros img Hin Hw Hh. split; [apply Hicon; assumption|]. apply filter_In. split.
  - apply in_map. exact Hin.
  - unfold has_tier. rewrite (Hicon img Hw Hh). reflexivity.
Qed.

Lemma classify_contract_witness :
  In (annotate ascii_lower small_icon)
     (tiny_icons (filter_meaningful_images ascii_lower [small_icon; hero_image])).
Proof.
  refine (proj2 (proj1 (proj2 (proj2 (proj2 (proj2
            (classify_contract ascii_lower [small_icon; hero_image])))))
            small_icon _ _ _)).
  - left. reflexivity.
  - apply Qle_bool_iff. reflexivity.
  - apply Qle_bool_iff. reflexivity.
Defined.

(** ** String facts *)

Lemma starts_with_app (p t u : pystr) :
  starts_with p t = true -> starts_with p (t ++ u) = true.
Proof.
  revert t. induction p as [|a p IH]; intros t H; [reflexivity|].
  destruct t as [|b t]; [discriminate|]. simpl in *.
  apply andb_true_iff in H. destruct H as [Hab Hp]. rewrite Hab. simpl. apply IH. exact Hp.
Qed.

Lemma starts_with_refl_app (p u : pystr) : starts_with p (p ++ u) = true.
Proof. induction p as [|a p IH]; simpl; [reflexivity|]. rewrite N.eqb_refl. exact IH. Qed.

Lemma contains_of_starts_with (n t : pystr) : starts_with n t = true -> contains n t = true.
Proof. destruct t; simpl; intro H; [exact H|]. rewrite H. reflexivity. Qed.

Lemma contains_app_r (n a b : pystr) : contains n b = true -> contains n (a ++ b) = true.
Proof.
  induction a as [|x a IH]; simpl; intro H; [exact H|]. rewrite (IH H). apply orb_true_r.
Qed.

Lemma placeholder_has_picsum (img : image_desc) : contains picsum (placeholder_url img) = true.
Proof.
  unfold placeholder_url.
  change (s "https://picsum.photos/") with (s "https://" ++ picsum ++ s "/").
  rewrite <- !app_assoc. apply contains_app_r. apply contains_of_starts_with.
  apply starts_with_refl_app.
Qed.

Lemma placeholder_nonempty (img : image_desc) : nonempty (placeholder_url img) = true.
Proof. reflexivity. Qed.

Lemma resolve_url_nonempty (img : image_desc) : nonempty (resolve_url img) = true.
Proof.
  unfold resolve_url.
  destruct (nonempty (src img) && negb (starts_with (s "data:") (src img))) eqn:E;
    [|reflexivity].
  apply andb_true_iff in E. destruct E as [E _]. exact E.
Qed.

(** C10 (no partial credit for inline images). For an image whose source
    is a [data:] URL, the resolved URL is the picsum placeholder, so the
    trailing-segment credit of 0.8 is never tried: the image earns 1 when
    the placeholder or its original source occurs verbatim, 0 otherwise. *)
Theorem data_url_verbatim_only (lower : pystr -> pystr) (html : pystr) (img : image_desc)
    (Hdata : starts_with (s "data:") (src img) = true) :
  actual_url (annotate lower img) = placeholder_url img
  /\ image_award html (annotate lower img)
     = if contains (placeholder_url img) html || contains (src img) html then 1 else 0.
Proof.
  assert (Hsrc : nonempty (src img) = true).
  { destruct (src img); [discriminate|reflexivity]. }
  assert (Hu : resolve_url img = placeholder_url img).
  { unfold resolve_url. rewrite Hsrc, Hdata. reflexivity. }
  split; [exact Hu|].
  unfold image_award. simpl. rewrite Hu, placeholder_nonempty, Hsrc, placeholder_has_picsum.
  simpl. destruct (contains (placeholder_url img) html); [reflexivity|].
  destruct (contains (src img) html); reflexivity.
Qed.

Lemma data_url_verbatim_only_witness :
  image_award (s "<img src=x>") (annotate ascii_lower (mkImage 150 120 (s "data:image/png;base64,AAAA") [] [] 0)) = 0.
Proof.
  rewrite (proj2 (data_url_verbatim_only ascii_lower (s "<img src=x>")
                    (mkImage 150 120 (s "data:image/png;base64,AAAA") [] [] 0) eq_refl)).
  vm_compute. reflexivity.
Defined.

(** ** Results of [clone_website] *)


Lemma loop_keeps_produced (lower : pystr -> pystr) (cfg : cloner) (e : env) (sd : scraped)
    (ics : Q) (fuel it : nat) (st : loop_state) :
  produced e (html_content st) -> produced e (best_html st) ->
  produced e (html_content (refinement_loop lower cfg e sd ics fuel it st))
  /\ produced e (best_html (refinement_loop lower cfg e sd ics fuel it st)).
Proof.
  revert it st. induction fuel as [|fuel IH]; intros it st Hh Hb; simpl; [split; assumption|].
  destruct (render_compare e it (html_content st)) as [visual|]; [|split; exact Hb].
  set (content := simple_content_validation lower (html_content st) sd).
  set (image := validate_smart_image_implementation lower (html_content st) sd).
  set (comb := visual * 0.6 + content * 0.3 + image * 0.1).
  assert (Hbh : produced e (fst (if Qlt_bool (best_similarity st) comb
                                 then (html_content st, comb)
                                 else (best_html st, best_similarity st)))).
  { destruct (Qlt_bool (best_similarity st) comb); assumption. }
  destruct (if Qlt_bool (best_similarity st) comb
            then (html_content st, comb) else (best_html st, best_similarity st)) as [bh bs].
  simpl in Hbh.
  destruct (Qle_bool (quality_threshold cfg) visual && Qlt_bool 0.7 image);
    [simpl; split; assumption|].
  destruct (Qlt_bool content (ics * 0.8)); [simpl; split; assumption|].
  destruct (Nat.ltb it (max_iterations cfg)).
  - destruct (refine e it (html_content st) visual) as [raw|] eqn:Er;
      [|simpl; split; assumption].
    apply IH; [|exact Hbh]. exists raw. split; [right; eauto|reflexivity].
  - apply IH; assumption.
Qed.

Lemma error_page_shape (msg : pystr) :
  nonempty (create_error_page msg) = true
  /\ starts_with (s "<!DOCTYPE html>") (create_error_page msg) = true
  /\ ends_with (s "</html>") (create_error_page msg) = true.
Proof.
  unfold create_error_page. split; [reflexivity|]. split.
  - apply starts_with_app. vm_compute. reflexivity.
  - unfold ends_with. rewrite !rev_app_distr. rewrite <- app_assoc. apply starts_with_app.
    vm_compute. reflexivity.
Qed.

(** C3 (displayable output, as the code has it). Without a screenshot the
    result is the failure carrying the synthesised error page for
    [No screenshot data available]; every failure carries an error page,
    which is a non-empty text starting with [<!DOCTYPE html>] and ending
    with [</html>]; a success carries the normalised answer of one of the
    generator calls, whatever that answer is. *)
Theorem clone_result_html (lower : pystr -> pystr) (cfg : cloner) (e : env) (sd : scraped) :
  let r := clone_website lower cfg e sd in
  (original_screenshot sd = [] ->
     r = CloneFailed (s "No screenshot data available")
                     (create_error_page (s "No screenshot data available")))
  /\ (result_success r = false ->
        exists msg, result_html r = create_error_page msg
          /\ nonempty (result_html r) = true
          /\ starts_with (s "<!DOCTYPE html>") (result_html r) = true
          /\ ends_with (s "</html>") (result_html r) = true)
  /\ (result_success r = true -> produced e (result_html r)).
Proof.
  cbv zeta. unfold clone_website.
  destruct (original_screenshot sd) as [|c shot] eqn:Es.
  - simpl. split; [reflexivity|]. split; [|discriminate].
    intros _. eexists. split; [reflexivity|]. apply error_page_shape.
  - simpl. split; [discriminate|].
    destruct (generate e) as [msg|raw] eqn:Eg.
    + split; [|discriminate]. intros _. exists msg. split; [reflexivity|].
      apply error_page_shape.
    + assert (Hp : produced e (best_html (run_loop lower cfg e sd (extract_html raw)))).
      { apply loop_keeps_produced; exists raw; (split; [left; exact Eg|reflexivity]). }
      destruct (final_render_compare e _); (split; [discriminate|]); intros _; exact Hp.
Qed.

Lemma clone_result_html_witness :
  clone_website ascii_lower default_cloner env_empty (mkScraped [] [] (mkText [] [] []) [])
  = CloneFailed (s "No screenshot data available")
                (create_error_page (s "No screenshot data available")).
Proof.
  apply (proj1 (clone_result_html ascii_lower default_cloner env_empty
                  (mkScraped [] [] (mkText [] [] []) []))).
  reflexivity.
Defined.

(** C4 (scoring failures, as the code has it). The session fails only when
    the screenshot is missing or the initial generation raises: a failure
    of rendering or of the visual comparison never turns [success] false.
    Such a failure in an iteration is not scored as zero: the iteration is
    not recorded, the loop stops and [html_content] goes back to the
    best-so-far markup. *)
Theorem scoring_failure_contained (lower : pystr -> pystr) (cfg : cloner) (e : env)
    (sd : scraped) :
  (result_success (clone_website lower cfg e sd) = false
   <-> original_screenshot sd = [] \/ exists msg, generate e = inl msg)
  /\ (forall ics fuel it st,
        render_compare e it (html_content st) = None ->
        refinement_loop lower cfg e sd ics (S fuel) it st = revert st).
Proof.
  split.
  - unfold clone_website. destruct (original_screenshot sd) as [|c shot].
    + simpl. split; [intros _; left; reflexivity|reflexivity].
    + simpl. destruct (generate e) as [msg|raw].
      * split; [intros _; right; exists msg; reflexivity|reflexivity].
      * destruct (final_render_compare e _); simpl; split; try discriminate;
          intros [H|[msg H]]; discriminate.
  - intros ics fuel it st H. simpl. rewrite H. reflexivity.
Qed.

Lemma scoring_failure_contained_witness :
  refinement_loop ascii_lower default_cloner env_render_fails sd_plain 1 2 1
    (mkLoopState (extract_html raw_nav) (extract_html raw_nav) 0 [])
  = revert (mkLoopState (extract_html raw_nav) (extract_html raw_nav) 0 []).
Proof.
  apply (proj2 (scoring_failure_contained ascii_lower default_cloner env_render_fails sd_plain)).
  reflexivity.
Defined.

(** ** Asset scorer *)

Lemma priority_images_annotated (lower : pystr -> pystr) (imgs : list image_desc)
    (d : img_data) :
  In d (priority_images lower imgs) -> exists img, In img imgs /\ d = annotate lower img.
Proof.
  unfold priority_images. rewrite filter_meaningful_images_eq. simpl. intro Hin.
  assert (Hd : In d (map (annotate lower) imgs)).
  { apply in_app_or in Hin. destruct Hin as [Hin|Hin].
    - apply (Permutation_in _ (proj1 (sort_by_area_desc_spec _))) in Hin.
      apply filter_In in Hin. apply Hin.
    - apply (Permutation_in _ (proj1 (sort_by_area_desc_spec _))) in Hin.
      apply filter_In in Hin. apply Hin. }
  apply in_map_iff in Hd. destruct Hd as [img [<- Hin']]. exists img. split; auto.
Qed.

Lemma image_award_bounds (html : pystr) (d : img_data) :
  0 <= image_award html d /\ image_award html d <= 1.
Proof.
  unfold image_award.
  destruct (nonempty (actual_url d) && contains (actual_url d) html);
    [split; discriminate|].
  destruct (nonempty (src (base d)) && contains (src (base d)) html);
    [split; discriminate|].
  destruct (nonempty (actual_url d) && negb (contains picsum (actual_url d)));
    [|split; discriminate].
  destruct (nonempty (last_segment (actual_url d)) && contains (last_segment (actual_url d)) html);
    split; discriminate.
Qed.


Lemma award_sum_nonneg (html : pystr) (l : list img_data) (a : Q) :
  0 <= a -> 0 <= award_sum html l a.
Proof.
  unfold award_sum. revert a. induction l as [|d l IH]; intros a Ha; simpl; [exact Ha|].
  apply IH. destruct (image_award_bounds html d). lra.
Qed.

Lemma award_sum_proper (html : pystr) (l : list img_data) (a b : Q) :
  a == b -> award_sum html l a == award_sum html l b.
Proof.
  unfold award_sum. revert a b. induction l as [|d l IH]; intros a b H; simpl; [exact H|].
  apply IH. rewrite H. reflexivity.
Qed.

Lemma nat_Q_S (n : nat) : nat_Q (S n) == nat_Q n + 1.
Proof. unfold nat_Q. rewrite Nat2Z.inj_succ, <- Z.add_1_r, inject_Z_plus. reflexivity. Qed.

Lemma award_sum_all_one (html : pystr) (l : list img_data) (a : Q) :
  (forall d, In d l -> image_award html d = 1) -> award_sum html l a == a + nat_Q (length l).
Proof.
  revert a. induction l as [|d l IH]; intros a H; simpl.
  - unfold nat_Q. simpl. ring.
  - change (award_sum html l (a + image_award html d) == a + nat_Q (S (length l))).
    rewrite (H d (or_introl eq_refl)). rewrite IH by (intros; apply H; right; assumption).
    rewrite nat_Q_S. ring.
Qed.

Lemma award_sum_all_zero (html : pystr) (l : list img_data) (a : Q) :
  (forall d, In d l -> image_award html d = 0) -> award_sum html l a == a.
Proof.
  revert a. induction l as [|d l IH]; intros a H; simpl; [reflexivity|].
  change (award_sum html l (a + image_award html d) == a).
  rewrite (H d (or_introl eq_refl)). rewrite IH by (intros; apply H; right; assumption).
  ring.
Qed.

Lemma py_min_one_bounds (a : Q) : 0 <= a -> 0 <= py_min a 1 /\ py_min a 1 <= 1.
Proof.
  intro Ha. unfold py_min. destruct (Qlt_bool 1 a) eqn:E; [split; discriminate|].
  split; [exact Ha|]. apply Qnot_lt_le. intro H. apply Qlt_bool_iff in H. congruence.
Qed.

Lemma py_min_one_ge (a : Q) : 1 <= a -> py_min a 1 == 1.
Proof.
  intro Ha. unfold py_min. destruct (Qlt_bool 1 a) eqn:E; [reflexivity|].
  apply Qle_antisym; [|exact Ha]. apply Qnot_lt_le. intro H. apply Qlt_bool_iff in H.
  congruence.
Qed.

Lemma py_min_one_zero (a : Q) : a == 0 -> py_min a 1 == 0.
Proof.
  intro Ha. unfold py_min. destruct (Qlt_bool 1 a) eqn:E; [|exact Ha].
  apply Qlt_bool_iff in E. exfalso. rewrite Ha in E. discriminate.
Qed.


Lemma icon_bonus_ge (html : pystr) (x : Q) : x <= icon_bonus html x.
Proof.
  unfold icon_bonus, py_min. destruct (Nat.ltb 0 (count_icon_glyphs html)); [|apply Qle_refl].
  destruct (Qlt_bool 0.5 (nat_Q (count_icon_glyphs html) * 0.1)); [lra|].
  assert (0 <= nat_Q (count_icon_glyphs html)) by apply nat_Q_nonneg. lra.
Qed.

Lemma validate_smart_image_eq (lower : pystr -> pystr) (html : pystr) (sd : scraped)
    (img0 : image_desc) (imgs0 : list image_desc) (d0 : img_data) (ds0 : list img_data) :
  image_descriptions sd = img0 :: imgs0 ->
  priority_images lower (img0 :: imgs0) = d0 :: ds0 ->
  validate_smart_image_implementation lower html sd
  = py_min (icon_bonus html (award_sum html (d0 :: ds0) 0) / nat_Q (length (d0 :: ds0))) 1.
Proof. intros Hi Hp. unfold validate_smart_image_implementation. rewrite Hi, Hp. reflexivity. Qed.

(** C7 (asset scorer boundaries). The score lies in [0, 1]; it is exactly 1
    when the source lists no image or no image is a logo or content image;
    it equals 1 when the candidate contains every priority image's resolved
    URL verbatim; and, when there are priority images (with none the score
    is 1, as above), it equals 0 when no priority image matches (neither
    its resolved URL, nor its non-empty original source, nor its non-empty
    trailing path segment occurs in the candidate) and the candidate holds
    no glyph of the icon class. *)
Theorem asset_score_boundaries (lower : pystr -> pystr) (html : pystr) (sd : scraped) :
  let score := validate_smart_image_implementation lower html sd in
  let prio := priority_images lower (image_descriptions sd) in
  (0 <= score /\ score <= 1)
  /\ (image_descriptions sd = [] -> score = 1)
  /\ (prio = [] -> score = 1)
  /\ ((forall d, In d prio -> contains (actual_url d) html = true) -> score == 1)
  /\ (prio <> [] ->
      (forall d, In d prio ->
         contains (actual_url d) html = false
         /\ (nonempty (src (base d)) = true -> contains (src (base d)) html = false)
         /\ (nonempty (last_segment (actual_url d)) = true ->
             contains (last_segment (actual_url d)) html = false)) ->
      count_icon_glyphs html = 0%nat -> score == 0).
Proof.
  cbv zeta.
  destruct (image_descriptions sd) as [|img0 imgs0] eqn:Ei.
  { unfold validate_smart_image_implementation. rewrite Ei.
    repeat split; try discriminate; intros; [reflexivity..|]. exfalso. auto. }
  destruct (priority_images lower (img0 :: imgs0)) as [|d0 ds0] eqn:Ep.
  { unfold validate_smart_image_implementation. rewrite Ei, Ep.
    repeat split; try discriminate; intros; [reflexivity..|]. exfalso. auto. }
  rewrite (validate_smart_image_eq lower html sd img0 imgs0 d0 ds0 Ei Ep).
  set (prio := d0 :: ds0) in *.
  assert (Hn : 0 < nat_Q (length prio)) by (apply nat_Q_pos; simpl; lia).
  assert (Hsum : 0 <= award_sum html prio 0) by (apply award_sum_nonneg; apply Qle_refl).
  assert (Hx : 0 <= icon_bonus html (award_sum html prio 0)).
  { eapply Qle_trans; [exact Hsum|apply icon_bonus_ge]. }
  assert (Hdiv : 0 <= icon_bonus html (award_sum html prio 0) / nat_Q (length prio)).
  { apply Qle_shift_div_l; [exact Hn|]. rewrite Qmult_0_l. exact Hx. }
  split; [apply py_min_one_bounds; exact Hdiv|].
  split; [discriminate|]. split; [discriminate|]. split.
  - intro Hall. apply py_min_one_ge. apply Qle_shift_div_l; [exact Hn|].
    rewrite Qmult_1_l. eapply Qle_trans; [|apply icon_bonus_ge].
    rewrite award_sum_all_one; [rewrite Qplus_0_l; apply Qle_refl|].
    intros d Hd. destruct (priority_images_annotated lower (img0 :: imgs0) d)
      as [img [_ ->]]; [rewrite Ep; exact Hd|].
    unfold image_award. simpl. rewrite resolve_url_nonempty.
    specialize (Hall (annotate lower img) Hd). simpl in Hall. rewrite Hall. reflexivity.
  - intros _ Hnone Hglyph. apply py_min_one_zero.
    unfold icon_bonus. rewrite Hglyph. cbv [Nat.ltb Nat.leb].
    rewrite award_sum_all_zero.
    + unfold Qdiv. apply Qmult_0_l.
    + intros d Hd. destruct (Hnone d Hd) as [H1 [H2 H3]]. unfold image_award.
      rewrite H1, andb_false_r.
      destruct (nonempty (src (base d))) eqn:Es; [rewrite (H2 eq_refl)|]; simpl;
        (destruct (nonempty (actual_url d) && negb (contains picsum (actual_url d)));
         [|reflexivity]);
        (destruct (nonempty (last_segment (actual_url d))) eqn:El;
         [rewrite (H3 eq_refl)|]; reflexivity).
Qed.

Lemma asset_score_boundaries_witness :
  validate_smart_image_implementation ascii_lower
    (s "<img src=https://cdn.example.com/img/hero.png>") sd_hero == 1
  /\ validate_smart_image_implementation ascii_lower (s "plain") sd_hero == 0.
Proof.
  split.
  - apply (proj1 (proj2 (proj2 (proj2 (asset_score_boundaries ascii_lower
             (s "<img src=https://cdn.example.com/img/hero.png>") sd_hero))))).
    intros d Hd. vm_compute in Hd. destruct Hd as [<-|[]]. vm_compute. reflexivity.
  - apply (proj2 (proj2 (proj2 (proj2 (asset_score_boundaries ascii_lower
             (s "plain") sd_hero))))).
    + vm_compute. discriminate.
    + intros d Hd. vm_compute in Hd. destruct Hd as [<-|[]].
      split; [vm_compute; reflexivity|]. split; intros _; vm_compute; reflexivity.
    + vm_compute. reflexivity.
Defined.

(** ** The final assessment *)

Lemma loop_best_is_max (lower : pystr -> pystr) (cfg : cloner) (e : env) (sd : scraped)
    (ics : Q) (fuel it : nat) (st : loop_state) :
  (forall r, In r (iteration_results st) -> combined_score r <= best_similarity st) ->
  (best_similarity st = 0
   \/ exists r, In r (iteration_results st) /\ combined_score r = best_similarity st) ->
  let st' := refinement_loop lower cfg e sd ics fuel it st in
  (forall r, In r (iteration_results st') -> combined_score r <= best_similarity st')
  /\ (best_similarity st' = 0
      \/ exists r, In r (iteration_results st') /\ combined_score r = best_similarity st').
Proof.
  revert it st. induction fuel as [|fuel IH]; intros it st Hle Hex; simpl; [split; assumption|].
  destruct (render_compare e it (html_content st)) as [visual|]; [|split; assumption].
  set (content := simple_content_validation lower (html_content st) sd).
  set (image := validate_smart_image_implementation lower (html_content st) sd).
  set (comb := visual * 0.6 + content * 0.3 + image * 0.1).
  set (rec := mkIterationResult it visual content image comb).
  assert (Hinv : forall bs, bs = snd (if Qlt_bool (best_similarity st) comb
                                      then (html_content st, comb)
                                      else (best_html st, best_similarity st)) ->
           (forall r, In r (iteration_results st ++ [rec]) -> combined_score r <= bs)
           /\ (bs = 0 \/ exists r, In r (iteration_results st ++ [rec])
                                   /\ combined_score r = bs)).
  { intros bs ->. destruct (Qlt_bool (best_similarity st) comb) eqn:Eb; simpl.
    - apply Qlt_bool_iff in Eb. split.
      + intros r Hr. apply in_app_or in Hr. destruct Hr as [Hr|[<-|[]]].
        * apply Qlt_le_weak. eapply Qle_lt_trans; [apply Hle; exact Hr|exact Eb].
        * apply Qle_refl.
      + right. exists rec. split; [apply in_or_app; right; left; reflexivity|reflexivity].
    - split.
      + intros r Hr. apply in_app_or in Hr. destruct Hr as [Hr|[<-|[]]].
        * apply Hle. exact Hr.
        * simpl. apply Qnot_lt_le. intro H. apply Qlt_bool_iff in H. congruence.
      + destruct Hex as [H0|[r [Hr Hc]]]; [left; exact H0|].
        right. exists r. split; [apply in_or_app; left; exact Hr|exact Hc]. }
  destruct (if Qlt_bool (best_similarity st) comb
            then (html_content st, comb) else (best_html st, best_similarity st)) as [bh bs].
  specialize (Hinv bs eq_refl). destruct Hinv as [Hle' Hex'].
  destruct (Qle_bool (quality_threshold cfg) visual && Qlt_bool 0.7 image);
    [simpl; split; assumption|].
  destruct (Qlt_bool content (ics * 0.8)); [simpl; split; assumption|].
  destruct (Nat.ltb it (max_iterations cfg)).
  - destruct (refine e it (html_content st) visual) as [raw|]; [|simpl; split; assumption].
    apply IH; assumption.
  - apply IH; assumption.
Qed.

(** X15 (final re-score and its fallback). Once the screenshot is there
    and the initial generation succeeded, the session succeeds with the
    best-so-far markup [b]. If the final render and comparison succeed, the
    reported scores are a fresh re-score of [b]. If they raise, the session
    still succeeds and puts in its visual-similarity field the best combined
    score [0.6 visual + 0.3 content + 0.1 asset] of the scored iterations
    (0 when none was scored), and the content and asset scores of the
    initial candidate. *)
Theorem final_rescore_fallback (lower : pystr -> pystr) (cfg : cloner) (e : env)
    (sd : scraped) (raw : pystr)
    (Hshot : nonempty (original_screenshot sd) = true)
    (Hgen : generate e = inr raw) :
  let h := extract_html raw in
  let st := run_loop lower cfg e sd h in
  let b := best_html st in
  let n := length (iteration_results st) in
  (forall v, final_render_compare e b = Some v ->
     clone_website lower cfg e sd
     = CloneOk b v (simple_content_validation lower b sd)
               (validate_smart_image_implementation lower b sd) n)
  /\ (final_render_compare e b = None ->
      clone_website lower cfg e sd
      = CloneOk b (best_similarity st) (simple_content_validation lower h sd)
                (validate_smart_image_implementation lower h sd) n)
  /\ (forall r, In r (iteration_results st) -> combined_score r <= best_similarity st)
  /\ (best_similarity st = 0
      \/ exists r, In r (iteration_results st) /\ combined_score r = best_similarity st).
Proof.
  cbv zeta. unfold clone_website. rewrite Hshot, Hgen. simpl negb. cbv iota.
  destruct (loop_best_is_max lower cfg e sd (simple_content_validation lower (extract_html raw) sd)
              (max_iterations cfg) 1 (mkLoopState (extract_html raw) (extract_html raw) 0 []))
    as [Hle Hex].
  - intros r [].
  - left. reflexivity.
  - split; [|split; [|split]].
    + intros v Hv. rewrite Hv. reflexivity.
    + intros Hv. rewrite Hv. reflexivity.
    + exact Hle.
    + exact Hex.
Qed.


Lemma final_rescore_fallback_witness :
  let st := run_loop ascii_lower default_cloner env_final_fails sd_plain (extract_html raw_nav) in
  clone_website ascii_lower default_cloner env_final_fails sd_plain
  = CloneOk (best_html st) (best_similarity st)
            (simple_content_validation ascii_lower (extract_html raw_nav) sd_plain)
            (validate_smart_image_implementation ascii_lower (extract_html raw_nav) sd_plain)
            (length (iteration_results st)).
Proof.
  exact (proj1 (proj2 (final_rescore_fallback ascii_lower default_cloner env_final_fails
                         sd_plain raw_nav eq_refl eq_refl)) eq_refl).
Defined.

(** ** The refinement loop: numbering, stopping *)


(** The loop only appends records, and a record that passes the accept
    test or trips the regression guard is the last one appended. *)
Lemma loop_halting_last (lower : pystr -> pystr) (cfg : cloner) (e : env)
    (sd : scraped) (ics : Q) (fuel it : nat) (st : loop_state) :
  exists new,
    iteration_results (refinement_loop lower cfg e sd ics fuel it st)
    = iteration_results st ++ new
    /\ forall j r, nth_error new j = Some r -> halts cfg ics r -> length new = S j.
Proof.
  revert it st. induction fuel as [|fuel IH]; intros it st; simpl.
  - exists []. split; [symmetry; apply app_nil_r|]. intros [|j] r H; discriminate.
  - destruct (render_compare e it (html_content st)) as [visual|].
    2:{ exists []. split; [symmetry; apply app_nil_r|]. intros [|j] r H; discriminate. }
    set (content := simple_content_validation lower (html_content st) sd).
    set (image := validate_smart_image_implementation lower (html_content st) sd).
    set (rec := mkIterationResult it visual content image
                  (visual * 0.6 + content * 0.3 + image * 0.1)).
    destruct (if Qlt_bool (best_similarity st) (visual * 0.6 + content * 0.3 + image * 0.1)
              then (html_content st, visual * 0.6 + content * 0.3 + image * 0.1)
              else (best_html st, best_similarity st)) as [bh bs].
    assert (Hone : forall j r, nth_error [rec] j = Some r -> halts cfg ics r ->
                               length [rec] = S j).
    { intros [|[|j]] r H _; try discriminate; reflexivity. }
    destruct (Qle_bool (quality_threshold cfg) visual && Qlt_bool 0.7 image) eqn:Eacc.
    { exists [rec]. split; [reflexivity|exact Hone]. }
    destruct (Qlt_bool content (ics * 0.8)) eqn:Ereg.
    { exists [rec]. split; [reflexivity|exact Hone]. }
    assert (Hrec : ~ halts cfg ics rec).
    { intros [Ha|Hr].
      - apply accepts_bool in Ha. simpl in Ha. congruence.
      - simpl in Hr. apply Qlt_bool_iff in Hr. congruence. }
    assert (Hcons : forall new,
               (forall j r, nth_error new j = Some r -> halts cfg ics r -> length new = S j) ->
               forall j r, nth_error (rec :: new) j = Some r -> halts cfg ics r ->
               length (rec :: new) = S j).
    { intros new Hnew [|j] r Hn Ha; simpl in Hn.
      - injection Hn as <-. contradiction.
      - simpl. f_equal. exact (Hnew j r Hn Ha). }
    destruct (Nat.ltb it (max_iterations cfg)).
    + destruct (refine e it (html_content st) visual) as [raw|].
      * destruct (IH (S it) (mkLoopState (extract_html raw) bh bs
                               (iteration_results st ++ [rec]))) as [new [Heq Hnew]].
        exists (rec :: new). split.
        -- rewrite Heq. simpl. rewrite <- app_assoc. reflexivity.
        -- apply Hcons. exact Hnew.
      * exists [rec]. split; [reflexivity|exact Hone].
    + destruct (IH (S it) (mkLoopState (html_content st) bh bs
                             (iteration_results st ++ [rec]))) as [new [Heq Hnew]].
      exists (rec :: new). split.
      * rewrite Heq. simpl. rewrite <- app_assoc. reflexivity.
      * apply Hcons. exact Hnew.
Qed.


(** X2 (regression guard stops the loop). Once the record of an iteration
    has a content score below 0.8 times the content score of the initial
    markup, it is the last record: no iteration runs after it. *)
Theorem regression_stops_loop (lower : pystr -> pystr) (cfg : cloner) (e : env)
    (sd : scraped) (h : pystr) (i : nat) (r : iteration_result)
    (Hnth : nth_error (iteration_results (run_loop lower cfg e sd h)) i = Some r)
    (Hreg : content_score r < simple_content_validation lower h sd * 0.8) :
  length (iteration_results (run_loop lower cfg e sd h)) = S i.
Proof.
  unfold run_loop in *.
  destruct (loop_halting_last lower cfg e sd (simple_content_validation lower h sd)
              (max_iterations cfg) 1 (mkLoopState h h 0 [])) as [new [Heq Hnew]].
  simpl in Heq. rewrite Heq in *. apply (Hnew i r Hnth). right. exact Hreg.
Qed.

Lemma regression_stops_loop_witness :
  length (iteration_results
            (run_loop ascii_lower default_cloner env_regress sd_hero (extract_html raw_nav)))
  = 2%nat.
Proof.
  apply (regression_stops_loop ascii_lower default_cloner env_regress sd_hero
           (extract_html raw_nav) 1
           (mkIterationResult 2 0.8 (0 # 2) 0 (9600 # 20000))).
  - vm_compute. reflexivity.
  - apply Qlt_bool_iff. vm_compute. reflexivity.
Defined.

(** ** The content scorer: full marks, monotonicity *)

(** One [for item in items[:8]] loop adds [dt] counted items and [dp <= dt]
    passed ones, all of them passing exactly when every counted item occurs
    in the lowered markup. *)
Lemma check_items_offsets (lower : pystr -> pystr) (hl : pystr) (items : list pystr)
    (p t : nat) :
  exists dp dt, check_items lower hl items (p, t) = (p + dp, t + dt)%nat
    /\ (dp <= dt)%nat
    /\ (dp = dt <-> forall x, In x (firstn 8 items) -> counted_item x = true ->
                             contains (lower x) hl = true).
Proof.
  unfold check_items. generalize (firstn 8 items) as l. intro l.
  revert p t. induction l as [|x l IH]; intros p t; simpl.
  - exists O, O. split; [rewrite !Nat.add_0_r; reflexivity|]. split; [lia|].
    split; [intros _ y []|reflexivity].
  - destruct (nonempty x && Nat.ltb 2 (length (strip x))) eqn:Ec.
    + assert (Hc : counted_item x = true) by exact Ec.
      destruct (contains (lower x) hl) eqn:Ex.
      * destruct (IH (S p) (S t)) as [dp [dt [Heq [Hle Hiff]]]].
        exists (S dp), (S dt). rewrite Heq. split; [f_equal; lia|]. split; [lia|].
        split.
        -- intros Hd y [<-|Hy] Hy'; [exact Ex|]. apply Hiff; [lia|exact Hy|exact Hy'].
        -- intros H. f_equal. apply Hiff. intros y Hy Hy'. apply H; [right|]; assumption.
      * destruct (IH p (S t)) as [dp [dt [Heq [Hle Hiff]]]].
        exists dp, (S dt). rewrite Heq. split; [f_equal; lia|]. split; [lia|].
        split; [lia|]. intros H. rewrite (H x (or_introl eq_refl) Hc) in Ex. discriminate.
    + destruct (IH p t) as [dp [dt [Heq [Hle Hiff]]]].
      exists dp, dt. rewrite Heq. split; [reflexivity|]. split; [exact Hle|].
      rewrite Hiff. split.
      * intros H y [<-|Hy] Hy'; [unfold counted_item in Hy'; congruence|]. apply H; assumption.
      * intros H y Hy Hy'. apply H; [right|]; assumption.
Qed.

Lemma nat_Q_div_one (a b : nat) : (0 < b)%nat -> (nat_Q a / nat_Q b == 1 <-> a = b).
Proof.
  intro Hb. assert (Hq : ~ nat_Q b == 0).
  { intro H. pose proof (nat_Q_pos b Hb) as Hp. rewrite H in Hp. discriminate. }
  split.
  - intro H. assert (Hab : nat_Q a == nat_Q b).
    { rewrite <- (Qmult_1_l (nat_Q b)). rewrite <- H. field. exact Hq. }
    unfold nat_Q, Qeq in Hab. simpl in Hab. lia.
  - intros ->. field. exact Hq.
Qed.

(** X4 (content full marks). The content score is 1 exactly when every
    counted item among the first eight headings, buttons and navigation
    labels (a non-empty item longer than two characters once stripped)
    occurs in the lowered markup, the markup contains the no-op handler
    [onclick=Qreturn false;Q] (Q a double quote), and the lowered markup
    contains one of the landmark tags [<nav], [<header], [<footer], [<main]. *)
Theorem content_full_marks (lower : pystr -> pystr) (html : pystr) (sd : scraped) :
  simple_content_validation lower html sd == 1
  <-> (forall x, In x (firstn 8 (headings (text sd)) ++ firstn 8 (buttons (text sd))
                       ++ firstn 8 (navigation (text sd))) ->
                 counted_item x = true -> contains (lower x) (lower html) = true)
      /\ contains onclick_false html = true
      /\ existsb (fun tag => contains tag (lower html)) landmark_tags = true.
Proof.
  unfold simple_content_validation, content_checks. cbv zeta.
  set (hl := lower html).
  destruct (check_items_offsets lower hl (headings (text sd)) 0 0)
    as [d1 [t1 [E1 [L1 I1]]]].
  rewrite E1.
  destruct (check_items_offsets lower hl (buttons (text sd)) (0 + d1) (0 + t1))
    as [d2 [t2 [E2 [L2 I2]]]].
  rewrite E2.
  destruct (check_items_offsets lower hl (navigation (text sd)) (0 + d1 + d2) (0 + t1 + t2))
    as [d3 [t3 [E3 [L3 I3]]]].
  rewrite E3.
  assert (Hall : (forall x, In x (firstn 8 (headings (text sd)) ++ firstn 8 (buttons (text sd))
                                  ++ firstn 8 (navigation (text sd))) ->
                            counted_item x = true -> contains (lower x) hl = true)
                 <-> d1 = t1 /\ d2 = t2 /\ d3 = t3).
  { rewrite I1, I2, I3. split.
    - intros H. split; [|split]; intros x Hx; apply H; rewrite !in_app_iff; tauto.
    - intros [H1 [H2 H3]] x Hx. rewrite !in_app_iff in Hx.
      destruct Hx as [Hx|[Hx|Hx]]; [apply H1|apply H2|apply H3]; exact Hx. }
  rewrite Hall.
  rewrite nat_Q_div_one by lia.
  destruct (contains onclick_false html), (existsb (fun tag => contains tag hl) landmark_tags);
    split; intuition (try discriminate; lia).
Qed.

Lemma contains_app_l (n a b : pystr) : contains n a = true -> contains n (a ++ b) = true.
Proof.
  induction a as [|x a IH]; simpl; intro H.
  - destruct n; [destruct b; reflexivity|discriminate].
  - apply orb_true_iff in H. destruct H as [H|H].
    + apply orb_true_iff. left. exact (starts_with_app n (x :: a) b H).
    + rewrite (IH H). apply orb_true_r.
Qed.

Lemma contains_infix (n pre t post : pystr) :
  contains n t = true -> contains n (pre ++ t ++ post) = true.
Proof. intro H. apply contains_app_r. apply contains_app_l. exact H. Qed.

(** With more text to search, an item loop passes at least as many items
    and counts the same ones. *)
Lemma check_items_mono (lower : pystr -> pystr) (hl hl' : pystr) (items : list pystr)
    (pt pt' : nat * nat) :
  (forall x, contains x hl = true -> contains x hl' = true) ->
  (fst pt <= fst pt')%nat -> snd pt = snd pt' ->
  (fst (check_items lower hl items pt) <= fst (check_items lower hl' items pt'))%nat
  /\ snd (check_items lower hl items pt) = snd (check_items lower hl' items pt').
Proof.
  intros Hc. unfold check_items. generalize (firstn 8 items) as l. intro l.
  revert pt pt'. induction l as [|x l IH]; intros [p t] [p' t'] Hp Ht; simpl in *;
    [split; assumption|].
  destruct (nonempty x && Nat.ltb 2 (length (strip x))); [|apply IH; assumption].
  destruct (contains (lower x) hl) eqn:Ex.
  - rewrite (Hc _ Ex). apply IH; simpl; lia.
  - destruct (contains (lower x) hl'); apply IH; simpl; lia.
Qed.

Lemma nat_Q_div_le (a b c : nat) : (a <= b)%nat -> nat_Q a / nat_Q c <= nat_Q b / nat_Q c.
Proof.
  intro H. unfold Qdiv. apply Qmult_le_compat_r; [apply nat_Q_le; exact H|].
  apply Qinv_le_0_compat. apply nat_Q_nonneg.
Qed.

(** X5 (content score is monotone). For a case mapping that works
    character by character ([lower (a ++ b) = lower a ++ lower b], as
    [str.lower] does on ASCII text), surrounding a candidate with more
    markup never lowers its content score. *)
Theorem content_score_monotone (lower : pystr -> pystr) (pre html post : pystr) (sd : scraped)
    (Hlower : forall a b, lower (a ++ b) = lower a ++ lower b) :
  simple_content_validation lower html sd
  <= simple_content_validation lower (pre ++ html ++ post) sd.
Proof.
  unfold simple_content_validation, content_checks. cbv zeta.
  set (hl := lower html). set (hl' := lower (pre ++ html ++ post)).
  assert (Hc : forall x, contains x hl = true -> contains x hl' = true).
  { intros x Hx. unfold hl'. rewrite !Hlower. apply contains_infix. exact Hx. }
  pose proof (check_items_mono lower hl hl' (headings (text sd)) (0, 0)%nat (0, 0)%nat Hc
                (le_n _) eq_refl) as [A1 B1].
  pose proof (check_items_mono lower hl hl' (buttons (text sd)) _ _ Hc A1 B1) as [A2 B2].
  pose proof (check_items_mono lower hl hl' (navigation (text sd)) _ _ Hc A2 B2) as [A3 B3].
  revert A3 B3.
  destruct (check_items lower hl' (navigation (text sd)) _) as [p3' t3'].
  destruct (check_items lower hl (navigation (text sd)) _) as [p3 t3].
  cbv beta iota. cbn [fst snd]. intros A3 <-.
  apply nat_Q_div_le.
  assert (Ho : contains onclick_false html = true ->
               contains onclick_false (pre ++ html ++ post) = true)
    by apply contains_infix.
  assert (Hl : existsb (fun tag => contains tag hl) landmark_tags = true ->
               existsb (fun tag => contains tag hl') landmark_tags = true).
  { rewrite !existsb_exists. intros [tag [Hin Ht]]. exists tag. split; [exact Hin|].
    apply Hc. exact Ht. }
  destruct (contains onclick_false html), (contains onclick_false (pre ++ html ++ post)),
    (existsb (fun tag => contains tag hl) landmark_tags),
    (existsb (fun tag => contains tag hl') landmark_tags);
    try lia; try (discriminate (Ho eq_refl)); try (discriminate (Hl eq_refl)).
Qed.

Lemma content_score_monotone_witness :
  simple_content_validation ascii_lower raw_nav sd_hero
  <= simple_content_validation ascii_lower (s "<p>" ++ raw_nav ++ s "</p>") sd_hero.
Proof.
  apply content_score_monotone. intros a b. apply map_app.
Defined.

(** ** The asset scorer: monotonicity, the glyph bonus alone *)

Lemma award_test_mono (x html html' : pystr) :
  (forall n, contains n html = true -> contains n html' = true) ->
  nonempty x && contains x html = true -> nonempty x && contains x html' = true.
Proof.
  intros Hc H. apply andb_true_iff in H. destruct H as [H1 H2].
  rewrite H1, (Hc _ H2). reflexivity.
Qed.

Lemma image_award_mono (html html' : pystr) (d : img_data) :
  (forall n, contains n html = true -> contains n html' = true) ->
  image_award html d <= image_award html' d.
Proof.
  intro Hc. pose proof (image_award_bounds html' d) as [B0 B1].
  unfold image_award at 1. cbv zeta.
  destruct (nonempty (actual_url d) && contains (actual_url d) html) eqn:E1.
  { unfold image_award. cbv zeta. rewrite (award_test_mono _ _ _ Hc E1). apply Qle_refl. }
  destruct (nonempty (src (base d)) && contains (src (base d)) html) eqn:E2.
  { unfold image_award. cbv zeta. rewrite (award_test_mono _ _ _ Hc E2).
    destruct (nonempty (actual_url d) && contains (actual_url d) html'); apply Qle_refl. }
  destruct (nonempty (actual_url d) && negb (contains picsum (actual_url d))) eqn:E3;
    [|exact B0].
  destruct (nonempty (last_segment (actual_url d))
            && contains (last_segment (actual_url d)) html) eqn:E4; [|exact B0].
  unfold image_award. cbv zeta. rewrite E3, (award_test_mono _ _ _ Hc E4).
  destruct (nonempty (actual_url d) && contains (actual_url d) html'); [discriminate|].
  destruct (nonempty (src (base d)) && contains (src (base d)) html'); discriminate.
Qed.

Lemma award_sum_mono (html html' : pystr) (l : list img_data) (a a' : Q) :
  (forall n, contains n html = true -> contains n html' = true) ->
  a <= a' -> award_sum html l a <= award_sum html' l a'.
Proof.
  intro Hc. unfold award_sum. revert a a'.
  induction l as [|d l IH]; intros a a' Ha; simpl; [exact Ha|].
  apply IH. pose proof (image_award_mono html html' d Hc). lra.
Qed.

Lemma py_min_mono_l (a b c : Q) : a <= b -> py_min a c <= py_min b c.
Proof.
  intro H. unfold py_min.
  destruct (Qlt_bool c a) eqn:Ea, (Qlt_bool c b) eqn:Eb; try apply Qle_refl.
  - apply Qlt_bool_iff in Ea. assert (Hnb : ~ c < b) by (intro Hl; apply Qlt_bool_iff in Hl; congruence).
    exfalso. apply Hnb. lra.
  - apply Qlt_bool_iff in Eb. assert (Hna : ~ c < a) by (intro Hl; apply Qlt_bool_iff in Hl; congruence).
    lra.
  - exact H.
Qed.

Lemma py_min_le_l (a c : Q) : py_min a c <= a.
Proof.
  unfold py_min. destruct (Qlt_bool c a) eqn:E; [|apply Qle_refl].
  apply Qlt_bool_iff in E. lra.
Qed.

Lemma py_min_le_r (a c : Q) : py_min a c <= c.
Proof.
  unfold py_min. destruct (Qlt_bool c a) eqn:E; [apply Qle_refl|].
  apply Qnot_lt_le. intro H. apply Qlt_bool_iff in H. congruence.
Qed.

Lemma glyph_bonus_nonneg (k : nat) : 0 <= py_min (nat_Q k * 0.1) 0.5.
Proof.
  unfold py_min. pose proof (nat_Q_nonneg k).
  destruct (Qlt_bool 0.5 (nat_Q k * 0.1)); lra.
Qed.

Lemma count_icon_glyphs_infix (pre html post : pystr) :
  (count_icon_glyphs html <= count_icon_glyphs (pre ++ html ++ post))%nat.
Proof. unfold count_icon_glyphs. rewrite !filter_app, !length_app. lia. Qed.

Lemma icon_bonus_mono (html html' : pystr) (x x' : Q) :
  (count_icon_glyphs html <= count_icon_glyphs html')%nat -> x <= x' ->
  icon_bonus html x <= icon_bonus html' x'.
Proof.
  intros Hk Hx. unfold icon_bonus.
  destruct (Nat.ltb 0 (count_icon_glyphs html)) eqn:E,
           (Nat.ltb 0 (count_icon_glyphs html')) eqn:E'.
  - apply Qplus_le_compat; [exact Hx|]. apply py_min_mono_l.
    apply Qmult_le_compat_r; [apply nat_Q_le; exact Hk|discriminate].
  - apply Nat.ltb_lt in E. apply Nat.ltb_ge in E'. lia.
  - pose proof (glyph_bonus_nonneg (count_icon_glyphs html')). lra.
  - exact Hx.
Qed.

Lemma icon_bonus_le (html : pystr) (x : Q) : icon_bonus html x <= x + (1 # 2).
Proof.
  unfold icon_bonus. destruct (Nat.ltb 0 (count_icon_glyphs html)); [|lra].
  pose proof (py_min_le_r (nat_Q (count_icon_glyphs html) * 0.1) 0.5). lra.
Qed.

Lemma Qdiv_le_compat_r (a b c : Q) : a <= b -> 0 <= c -> a / c <= b / c.
Proof.
  intros H Hc. unfold Qdiv. apply Qmult_le_compat_r; [exact H|].
  apply Qinv_le_0_compat. exact Hc.
Qed.

(** X6 (asset score is monotone). Surrounding a candidate with more markup
    never lowers its asset score: every verbatim match stays a match and
    the glyph count can only grow. *)
Theorem asset_score_monotone (lower : pystr -> pystr) (pre html post : pystr) (sd : scraped) :
  validate_smart_image_implementation lower html sd
  <= validate_smart_image_implementation lower (pre ++ html ++ post) sd.
Proof.
  destruct (image_descriptions sd) as [|img imgs] eqn:Hi.
  { unfold validate_smart_image_implementation. rewrite Hi. apply Qle_refl. }
  destruct (priority_images lower (img :: imgs)) as [|d ds] eqn:Hp.
  { unfold validate_smart_image_implementation. rewrite Hi, Hp. apply Qle_refl. }
  rewrite !(validate_smart_image_eq lower _ sd img imgs d ds Hi Hp).
  apply py_min_mono_l. apply Qdiv_le_compat_r; [|apply nat_Q_nonneg].
  apply icon_bonus_mono; [apply count_icon_glyphs_infix|].
  apply award_sum_mono; [|apply Qle_refl].
  intros n Hn. apply contains_infix. exact Hn.
Qed.

(** X7 (the glyph bonus alone). When there are priority images but none of
    them is matched in the candidate (each earns 0), the asset score is at
    most 0.5 divided by the number of priority images, however many icon
    glyphs the candidate holds. *)
Theorem glyphs_alone_bounded (lower : pystr -> pystr) (html : pystr) (sd : scraped)
    (Hprio : priority_images lower (image_descriptions sd) <> [])
    (Hnone : forall d, In d (priority_images lower (image_descriptions sd)) ->
                       image_award html d = 0) :
  validate_smart_image_implementation lower html sd
  <= (1 # 2) / nat_Q (length (priority_images lower (image_descriptions sd))).
Proof.
  destruct (image_descriptions sd) as [|img imgs] eqn:Hi.
  { exfalso. apply Hprio. reflexivity. }
  destruct (priority_images lower (img :: imgs)) as [|d ds] eqn:Hp;
    [exfalso; apply Hprio; reflexivity|].
  rewrite (validate_smart_image_eq lower _ sd img imgs d ds Hi Hp).
  eapply Qle_trans; [apply py_min_le_l|].
  apply Qdiv_le_compat_r; [|apply nat_Q_nonneg].
  pose proof (award_sum_all_zero html (d :: ds) 0 Hnone) as Hz.
  pose proof (icon_bonus_le html (award_sum html (d :: ds) 0)) as Hb.
  lra.
Qed.

Lemma glyphs_alone_bounded_witness :
  validate_smart_image_implementation ascii_lower
    (s "<p>" ++ [9881; 9881; 10003; 127968; 128231; 128222]%N ++ s "</p>") sd_hero
  <= (1 # 2) / nat_Q 1.
Proof.
  apply (glyphs_alone_bounded ascii_lower
           (s "<p>" ++ [9881; 9881; 10003; 127968; 128231; 128222]%N ++ s "</p>") sd_hero).
  - intro H. vm_compute in H. discriminate H.
  - intros d Hd. vm_compute in Hd. destruct Hd as [<-|[]]. vm_compute. reflexivity.
Defined.

(** ** Resolved image URLs *)

(** X8 (resolved URLs are never inline). The [actual_url] the classifier
    attaches to an image is never empty and never a [data:] URL; it is the
    original source whenever that source is non-empty and not a [data:]
    URL. *)
Theorem actual_url_never_inline (lower : pystr -> pystr) (img : image_desc) :
  nonempty (actual_url (annotate lower img)) = true
  /\ starts_with (s "data:") (actual_url (annotate lower img)) = false
  /\ (nonempty (src img) = true -> starts_with (s "data:") (src img) = false ->
      actual_url (annotate lower img) = src img).
Proof.
  simpl actual_url. split; [apply resolve_url_nonempty|]. unfold resolve_url.
  split.
  - destruct (nonempty (src img) && negb (starts_with (s "data:") (src img))) eqn:E;
      [|reflexivity].
    apply andb_true_iff in E. destruct E as [_ E]. apply negb_true_iff. exact E.
  - intros H1 H2. rewrite H1, H2. reflexivity.
Qed.

(** ** The normaliser on plain text *)

Lemma starts_with_in (p t : pystr) (c : N) :
  starts_with p t = true -> In c p -> In c t.
Proof.
  revert t. induction p as [|a p IH]; intros t H Hc; [destruct Hc|].
  destruct t as [|b t]; [discriminate|]. simpl in H. apply andb_true_iff in H.
  destruct H as [Hab Hp]. apply N.eqb_eq in Hab. subst b.
  destruct Hc as [<-|Hc]; [left; reflexivity|right; apply (IH t Hp Hc)].
Qed.

Lemma notin_of_existsb (c : N) (t : pystr) : existsb (N.eqb c) t = false -> ~ In c t.
Proof.
  intros H Hin. assert (existsb (N.eqb c) t = true) by (apply existsb_exists;
    exists c; split; [exact Hin|apply N.eqb_refl]). congruence.
Qed.

Lemma remove_fence_id (pat : pystr) (fuel : nat) (t : pystr) :
  In 96%N pat -> ~ In 96%N t -> remove_fence pat fuel t = t.
Proof.
  intros Hp. revert t. induction fuel as [|fuel IH]; intros t Ht; [reflexivity|].
  destruct t as [|c t]; [reflexivity|]. simpl.
  destruct (starts_with pat (c :: t)) eqn:E.
  - exfalso. exact (Ht (starts_with_in _ _ _ E Hp)).
  - f_equal. apply IH. intro H. apply Ht. right. exact H.
Qed.

Lemma ascii_lower_in (c : N) (t : pystr) :
  (c < 65 \/ 122 < c)%N -> In c (ascii_lower t) -> In c t.
Proof.
  intros Hc H. unfold ascii_lower in H. apply in_map_iff in H.
  destruct H as [x [Hx Hin]].
  destruct ((65 <=? x) && (x <=? 90))%N eqn:E.
  - apply andb_true_iff in E. destruct E as [E1 E2].
    apply N.leb_le in E1. apply N.leb_le in E2. lia.
  - subst x. exact Hin.
Qed.

Lemma search_doc_none (open_ t : pystr) :
  In 60%N open_ -> ~ In 60%N t -> search_doc open_ t = None.
Proof.
  intros Hp. induction t as [|c t IH]; intro Ht; [reflexivity|]. simpl.
  destruct (starts_with_ci open_ (c :: t)) eqn:E.
  - exfalso. apply Ht. apply (ascii_lower_in 60 (c :: t)); [lia|].
    apply (starts_with_in _ _ _ E). unfold ascii_lower. apply in_map_iff.
    exists 60%N. split; [reflexivity|exact Hp].
  - apply IH. intro H. apply Ht. right. exact H.
Qed.

Lemma lstrip_in (c : N) (t : pystr) : In c (lstrip t) -> In c t.
Proof.
  induction t as [|x t IH]; simpl; [tauto|].
  destruct (py_isspace x); [intro H; right; apply IH; exact H|tauto].
Qed.

Lemma strip_in (c : N) (t : pystr) : In c (strip t) -> In c t.
Proof.
  unfold strip. intro H. apply in_rev in H. apply lstrip_in in H.
  apply in_rev in H. apply lstrip_in in H. exact H.
Qed.

Lemma sub_links_id (fuel : nat) (t : pystr) : ~ In 34%N t -> sub_links fuel t = t.
Proof.
  revert t. induction fuel as [|fuel IH]; intros t Ht; [reflexivity|].
  destruct t as [|c t]; [reflexivity|].
  assert (E : starts_with (s "href=" ++ dq) (c :: t) = false).
  { destruct (starts_with (s "href=" ++ dq) (c :: t)) eqn:E; [|reflexivity].
    exfalso. apply Ht. apply (starts_with_in _ _ _ E). vm_compute. tauto. }
  simpl sub_links. simpl in E. rewrite E.
  f_equal. apply IH. intro H. apply Ht. right. exact H.
Qed.

Lemma sub_disable_id (tag attr : pystr) (fuel : nat) (t : pystr) :
  In 60%N tag -> ~ In 60%N t -> sub_disable tag attr fuel t = t.
Proof.
  intro Hp. revert t. induction fuel as [|fuel IH]; intros t Ht; [reflexivity|].
  destruct t as [|c t]; [reflexivity|]. simpl sub_disable.
  destruct (starts_with tag (c :: t)) eqn:E.
  - exfalso. exact (Ht (starts_with_in _ _ _ E Hp)).
  - f_equal. apply IH. intro H. apply Ht. right. exact H.
Qed.

Lemma replace_all_id (old new : pystr) (fuel : nat) (t : pystr) :
  In 60%N old -> ~ In 60%N t -> replace_all old new fuel t = t.
Proof.
  intro Hp. revert t. induction fuel as [|fuel IH]; intros t Ht; [reflexivity|].
  destruct t as [|c t]; [reflexivity|]. simpl replace_all.
  destruct (nonempty old && starts_with old (c :: t)) eqn:E.
  - exfalso. apply andb_true_iff in E. exact (Ht (starts_with_in _ _ _ (proj2 E) Hp)).
  - f_equal. apply IH. intro H. apply Ht. right. exact H.
Qed.

Lemma sub_img_id (fuel : nat) (t : pystr) : ~ In 60%N t -> sub_img fuel t = t.
Proof.
  revert t. induction fuel as [|fuel IH]; intros t Ht; [reflexivity|].
  destruct t as [|c t]; [reflexivity|].
  assert (E : starts_with (s "<img") (c :: t) = false).
  { destruct (starts_with (s "<img") (c :: t)) eqn:E; [|reflexivity].
    exfalso. apply Ht. apply (starts_with_in _ _ _ E). left. reflexivity. }
  simpl sub_img. simpl in E. rewrite E.
  f_equal. apply IH. intro H. apply Ht. right. exact H.
Qed.

Lemma fix_html_plain (t : pystr) : ~ In 60%N t -> ~ In 34%N t -> fix_html t = t.
Proof.
  intros Hlt Hq. unfold fix_html. cbv zeta.
  rewrite (sub_links_id _ t Hq).
  rewrite (sub_disable_id _ _ _ t) by (try exact Hlt; left; reflexivity).
  rewrite (sub_disable_id _ _ _ t) by (try exact Hlt; left; reflexivity).
  destruct (contains (s "viewport") t).
  - apply sub_img_id. exact Hlt.
  - rewrite (replace_all_id _ _ _ t) by (try exact Hlt; left; reflexivity).
    apply sub_img_id. exact Hlt.
Qed.

(** X9 (plain replies). A model reply with no [<], no backtick and no
    double quote comes out of [_extract_html] only stripped of its
    surrounding whitespace: no fence to remove, no document to cut out,
    and nothing for [_fix_html] to rewrite. *)
Theorem plain_reply_only_stripped (t : pystr)
    (Hlt : ~ In 60%N t) (Hbt : ~ In 96%N t) (Hq : ~ In 34%N t) :
  extract_html t = strip t.
Proof.
  unfold extract_html. cbv zeta.
  rewrite (remove_fence_id _ _ t) by (try exact Hbt; left; reflexivity).
  rewrite (remove_fence_id _ _ t) by (try exact Hbt; left; reflexivity).
  rewrite (search_doc_none _ t) by (try exact Hlt; left; reflexivity).
  rewrite (search_doc_none _ t) by (try exact Hlt; left; reflexivity).
  apply fix_html_plain; intro H; apply strip_in in H; contradiction.
Qed.

Lemma plain_reply_only_stripped_witness :
  extract_html (s "  Sorry, I cannot clone this page.  ")
  = s "Sorry, I cannot clone this page.".
Proof.
  etransitivity; [apply plain_reply_only_stripped|];
    try (apply notin_of_existsb; vm_compute; reflexivity).
  vm_compute. reflexivity.
Defined.

(** ** The link pass of the normaliser *)

Lemma sub_links_cons (f : nat) (c : N) (t : pystr) :
  sub_links (S f) (c :: t)
  = let open_ := s "href=" ++ dq in
    if starts_with open_ (c :: t) then
      let rest := skipn (length open_) (c :: t) in
      match rest with
      | 35%N :: _ => c :: sub_links f t
      | _ =>
        match index_of quote_cp rest with
        | Some k => disabled_href ++ sub_links f (skipn (S k) rest)
        | None => c :: sub_links f t
        end
      end
    else c :: sub_links f t.
Proof. reflexivity. Qed.

Lemma match35_ne {A} (x : N) (r : list N) (b1 b2 : A) :
  x <> 35%N -> match x :: r with 35%N :: _ => b1 | _ => b2 end = b2.
Proof.
  intro H. destruct x as [|p]; [reflexivity|].
  destruct p as [p|p|]; try reflexivity.
  destruct p as [p|p|]; try reflexivity.
  destruct p as [p|p|]; try reflexivity.
  destruct p as [p|p|]; try reflexivity.
  destruct p as [p|p|]; try reflexivity.
  destruct p as [p|p|]; try reflexivity.
  exfalso. apply H. reflexivity.
Qed.

Lemma skipn_length_app {A} (p x : list A) : skipn (length p) (p ++ x) = x.
Proof. induction p as [|a p IH]; simpl; [reflexivity|exact IH]. Qed.

Lemma index_of_app (c : N) (u r : pystr) :
  ~ In c u -> index_of c (u ++ c :: r) = Some (length u).
Proof.
  induction u as [|a u IH]; intro H; simpl.
  - rewrite N.eqb_refl. reflexivity.
  - destruct (N.eqb c a) eqn:E.
    + apply N.eqb_eq in E. subst a. exfalso. apply H. left. reflexivity.
    + rewrite IH; [reflexivity|]. intro H'. apply H. right. exact H'.
Qed.

Lemma index_of_lt (c : N) (t : pystr) (k : nat) :
  index_of c t = Some k -> (k < length t)%nat.
Proof.
  revert k. induction t as [|a t IH]; intros k H; simpl in H; [discriminate|].
  destruct (N.eqb c a); [injection H as <-; simpl; lia|].
  destruct (index_of c t) as [k'|] eqn:E; [|discriminate]. simpl in H.
  injection H as <-. simpl. specialize (IH k' eq_refl). lia.
Qed.

(** The scan consumes at least one code point per step, so any fuel of at
    least the length of the text gives the same result. *)
Lemma sub_links_fuel (f1 f2 : nat) (t : pystr) :
  (length t <= f1)%nat -> (length t <= f2)%nat -> sub_links f1 t = sub_links f2 t.
Proof.
  revert f2 t. induction f1 as [|f1 IH]; intros f2 t H1 H2.
  - destruct t; [destruct f2; reflexivity|simpl in H1; lia].
  - destruct t as [|c t]; [destruct f2; reflexivity|].
    destruct f2 as [|f2]; [simpl in H2; lia|]. simpl in H1, H2.
    rewrite !sub_links_cons. cbv zeta.
    assert (Ht : sub_links f1 t = sub_links f2 t) by (apply IH; lia).
    rewrite Ht.
    destruct (starts_with (s "href=" ++ dq) (c :: t)); [|reflexivity].
    assert (Hs : forall r, (length r <= length t)%nat ->
                 forall k, index_of quote_cp r = Some k ->
                 sub_links f1 (skipn (S k) r) = sub_links f2 (skipn (S k) r)).
    { intros r Hr k Hk. apply IH; rewrite length_skipn; lia. }
    assert (Hlen : (length (skipn (length (s "href=" ++ dq)) (c :: t)) <= length t)%nat).
    { rewrite length_skipn. simpl. lia. }
    destruct (skipn (length (s "href=" ++ dq)) (c :: t)) as [|x r] eqn:Es.
    + reflexivity.
    + destruct (N.eq_dec x 35%N) as [->|Hx]; [reflexivity|].
      rewrite (match35_ne x r _ _ Hx), (match35_ne x r _ _ Hx).
      destruct (index_of quote_cp (x :: r)) as [k|] eqn:Ek; [|reflexivity].
      rewrite (Hs (x :: r) Hlen k Ek). reflexivity.
Qed.

(** X10 (link neutralisation). The first pass of [_fix_html] replaces a
    link [href=QUQ] whose target [U] has no double quote and does not
    start with [#] by [href=Q#Q onclick=Qreturn false;Q] (Q a double quote)
    and goes on after the closing quote; a fragment link [href=Q#...] is
    copied unchanged. *)
Theorem link_pass_rewrites (u rest : pystr)
    (Hq : ~ In 34%N u) (Hfrag : hd_error u <> Some 35%N) :
  let pass := fun x => sub_links (length x) x in
  pass ((s "href=" ++ dq) ++ u ++ dq ++ rest) = disabled_href ++ pass rest
  /\ pass ((s "href=" ++ dq) ++ 35%N :: rest) = (s "href=" ++ dq) ++ 35%N :: pass rest.
Proof.
  cbv beta zeta. split.
  - set (t := (s "href=" ++ dq) ++ u ++ dq ++ rest).
    assert (Hlen : length t = (7 + length u + length rest)%nat).
    { unfold t. rewrite !length_app. simpl. lia. }
    rewrite Hlen. replace (7 + length u + length rest)%nat
                    with (S (6 + length u + length rest))%nat by lia.
    destruct t as [|c t'] eqn:Et; [discriminate|].
    rewrite sub_links_cons. cbv zeta. rewrite <- Et. unfold t.
    rewrite starts_with_refl_app, skipn_length_app.
    assert (Hidx : index_of quote_cp (u ++ dq ++ rest) = Some (length u))
      by (apply index_of_app; exact Hq).
    assert (Hskip : skipn (S (length u)) (u ++ dq ++ rest) = rest).
    { replace (S (length u)) with (length (u ++ dq)) by (rewrite length_app; simpl; lia). rewrite app_assoc.
      apply skipn_length_app. }
    assert (Hfuel : sub_links (6 + length u + length rest) rest
                    = sub_links (length rest) rest) by (apply sub_links_fuel; lia).
    rewrite Hidx, Hskip, Hfuel.
    destruct u as [|a u']; [reflexivity|].
    assert (Ha : a <> 35%N) by (intro H; apply Hfrag; rewrite H; reflexivity).
    change ((a :: u') ++ dq ++ rest) with (a :: (u' ++ dq ++ rest)).
    apply (match35_ne a (u' ++ dq ++ rest) _ _ Ha).
  - rewrite length_app. simpl. reflexivity.
Qed.

Lemma link_pass_rewrites_witness :
  let x := (s "href=" ++ dq) ++ s "/about" ++ dq ++ s ">About</a>" in
  sub_links (length x) x
  = disabled_href ++ sub_links (length (s ">About</a>")) (s ">About</a>").
Proof.
  exact (proj1 (link_pass_rewrites (s "/about") (s ">About</a>")
                  (notin_of_existsb 34 (s "/about") eq_refl) ltac:(discriminate))).
Defined.

(** X11 (the area sort is stable). In the logo list and in the content
    list, the images of any one area appear in the order they have in the
    input. *)
Theorem equal_area_order_kept (lower : pystr -> pystr) (imgs : list image_desc) (q : Q) :
  let c := filter_meaningful_images lower imgs in
  let ds := map (annotate lower) imgs in
  filter (same_area q) (logos c) = filter (same_area q) (filter (has_tier Logo) ds)
  /\ filter (same_area q) (meaningful_images c)
     = filter (same_area q) (filter (has_tier Content) ds).
Proof.
  cbv zeta. rewrite filter_meaningful_images_eq. simpl. unfold sort_by_area_desc.
  split; rewrite sort_fold_filter by constructor; reflexivity.
Qed.

(** ** The image and handler passes of the normaliser *)

Lemma firstn_length_app {A} (p x : list A) : firstn (length p) (p ++ x) = p.
Proof. induction p as [|a p IH]; simpl; [reflexivity|rewrite IH; reflexivity]. Qed.

Lemma sub_img_cons (f : nat) (c : N) (t : pystr) :
  sub_img (S f) (c :: t)
  = if starts_with (s "<img") (c :: t) then
      let rest := skipn 4 (c :: t) in
      match index_of gt_cp rest with
      | Some k =>
        let group := firstn k rest in
        let before := s "<img" ++ group in
        if ends_with (s "loading=" ++ dq) before
           || ends_with (s "loading='") before
        then c :: sub_img f t
        else s "<img" ++ group ++ s " loading=" ++ dq ++ s "lazy" ++ dq ++ s ">"
               ++ sub_img f (skipn (S k) rest)
      | None => c :: sub_img f t
      end
    else c :: sub_img f t.
Proof. reflexivity. Qed.

Lemma sub_img_fuel (f1 f2 : nat) (t : pystr) :
  (length t <= f1)%nat -> (length t <= f2)%nat -> sub_img f1 t = sub_img f2 t.
Proof.
  revert f2 t. induction f1 as [|f1 IH]; intros f2 t H1 H2.
  - destruct t; [destruct f2; reflexivity|simpl in H1; lia].
  - destruct t as [|c t]; [destruct f2; reflexivity|].
    destruct f2 as [|f2]; [simpl in H2; lia|]. simpl in H1, H2.
    rewrite !sub_img_cons. cbv zeta.
    assert (Ht : sub_img f1 t = sub_img f2 t) by (apply IH; lia).
    rewrite Ht.
    destruct (starts_with (s "<img") (c :: t)); [|reflexivity].
    destruct (index_of gt_cp (skipn 4 (c :: t))) as [k|] eqn:Ek; [|reflexivity].
    rewrite (IH f2 (skipn (S k) (skipn 4 (c :: t)))); [reflexivity| |];
      rewrite length_skipn; rewrite length_skipn; simpl; lia.
Qed.

(** X12 (lazy loading). The last pass of [_fix_html] turns an image tag
    [<img G>], where [G] holds no [>] and the tag text before [>] ends
    neither in [loading=Q] nor in [loading=A] (Q, A a double and a single
    quote), into [<img G loading=QlazyQ>] and goes on after the tag; this
    includes a tag that already carries [loading=QlazyQ] somewhere in [G]. *)
Theorem img_pass_adds_lazy (g rest : pystr)
    (Hg : ~ In 62%N g)
    (Hq : ends_with (s "loading=" ++ dq) (s "<img" ++ g) = false)
    (Ha : ends_with (s "loading='") (s "<img" ++ g) = false) :
  let pass := fun x => sub_img (length x) x in
  pass (s "<img" ++ g ++ [62%N] ++ rest)
  = s "<img" ++ g ++ s " loading=" ++ dq ++ s "lazy" ++ dq ++ s ">" ++ pass rest.
Proof.
  cbv beta zeta.
  set (t := s "<img" ++ g ++ [62%N] ++ rest).
  assert (Hlen : length t = S (4 + length g + length rest)).
  { unfold t. rewrite !length_app. simpl. lia. }
  rewrite Hlen. destruct t as [|c t'] eqn:Et; [discriminate|].
  rewrite sub_img_cons. cbv zeta. rewrite <- Et. unfold t.
  rewrite starts_with_refl_app.
  assert (H4 : skipn 4 (s "<img" ++ g ++ [62%N] ++ rest) = g ++ [62%N] ++ rest)
    by exact (skipn_length_app (s "<img") _).
  rewrite !H4.
  assert (Hidx : index_of gt_cp (g ++ [62%N] ++ rest) = Some (length g))
    by (apply index_of_app; exact Hg).
  rewrite Hidx, firstn_length_app, Hq, Ha. simpl orb. cbv iota.
  assert (Hskip : skipn (S (length g)) (g ++ [62%N] ++ rest) = rest).
  { replace (S (length g)) with (length (g ++ [62%N])) by (rewrite length_app; simpl; lia).
    rewrite app_assoc. apply skipn_length_app. }
  rewrite Hskip, (sub_img_fuel (4 + length g + length rest) (length rest) rest) by lia.
  reflexivity.
Qed.

Lemma img_pass_adds_lazy_witness :
  let g := s " src=x.png loading=" ++ dq ++ s "lazy" ++ dq in
  sub_img (length (s "<img" ++ g ++ [62%N] ++ []))
          (s "<img" ++ g ++ [62%N] ++ [])
  = s "<img" ++ g ++ s " loading=" ++ dq ++ s "lazy" ++ dq ++ s ">"
      ++ sub_img (length (@nil N)) [].
Proof.
  exact (img_pass_adds_lazy (s " src=x.png loading=" ++ dq ++ s "lazy" ++ dq) []
           (notin_of_existsb 62 (s " src=x.png loading=" ++ dq ++ s "lazy" ++ dq) eq_refl) eq_refl eq_refl).
Defined.

Lemma sub_disable_cons (tag attr : pystr) (f : nat) (c : N) (t : pystr) :
  sub_disable tag attr (S f) (c :: t)
  = if starts_with tag (c :: t) then
      let rest := skipn (length tag) (c :: t) in
      let upto_gt := match index_of gt_cp rest with
                     | Some k => firstn k rest | None => rest end in
      if contains attr upto_gt then c :: sub_disable tag attr f t
      else tag ++ s " " ++ attr ++ dq ++ s "return false;" ++ dq
               ++ sub_disable tag attr f rest
    else c :: sub_disable tag attr f t.
Proof. reflexivity. Qed.

Lemma sub_disable_fuel (tag attr : pystr) (f1 f2 : nat) (t : pystr) :
  tag <> [] ->
  (length t <= f1)%nat -> (length t <= f2)%nat ->
  sub_disable tag attr f1 t = sub_disable tag attr f2 t.
Proof.
  intro Htag. revert f2 t. induction f1 as [|f1 IH]; intros f2 t H1 H2.
  - destruct t; [destruct f2; reflexivity|simpl in H1; lia].
  - destruct t as [|c t]; [destruct f2; reflexivity|].
    destruct f2 as [|f2]; [simpl in H2; lia|]. simpl in H1, H2.
    rewrite !sub_disable_cons. cbv zeta.
    assert (Ht : sub_disable tag attr f1 t = sub_disable tag attr f2 t) by (apply IH; lia).
    rewrite Ht.
    destruct (starts_with tag (c :: t)); [|reflexivity].
    destruct (contains attr _); [reflexivity|].
    assert (Hl : (length (skipn (length tag) (c :: t)) <= length t)%nat).
    { rewrite length_skipn. destruct tag; [congruence|]. simpl. lia. }
    rewrite (IH f2 (skipn (length tag) (c :: t))) by lia. reflexivity.
Qed.

(** X13 (disabled handlers). The button and form passes of [_fix_html]
    (a tag [TAG] and an attribute [ATTR]: [<button] with [onclick=],
    [<form] with [onsubmit=]) turn [TAG G>], where [G] holds no [>] and
    does not contain [ATTR], into [TAG ATTRQreturn false;QG>] (Q a double
    quote) and go on scanning at [G]. *)
Theorem disable_pass_adds_handler (tag attr g rest : pystr)
    (Htag : tag <> []) (Hg : ~ In 62%N g) (Ha : contains attr g = false) :
  let pass := fun x => sub_disable tag attr (length x) x in
  pass (tag ++ g ++ [62%N] ++ rest)
  = tag ++ s " " ++ attr ++ dq ++ s "return false;" ++ dq ++ pass (g ++ [62%N] ++ rest).
Proof.
  cbv beta zeta.
  set (t := tag ++ g ++ [62%N] ++ rest).
  assert (Hlen : length t = S (length t - 1)).
  { unfold t. destruct tag; [congruence|]. simpl. lia. }
  assert (Hrest : (length (g ++ [62%N] ++ rest) <= length t - 1)%nat).
  { unfold t. destruct tag; [congruence|]. rewrite !length_app. simpl. lia. }
  rewrite Hlen. destruct t as [|c t'] eqn:Et; [discriminate|].
  rewrite sub_disable_cons. cbv zeta. rewrite <- Et. unfold t.
  rewrite starts_with_refl_app, skipn_length_app.
  assert (Hidx : index_of gt_cp (g ++ [62%N] ++ rest) = Some (length g))
    by (apply index_of_app; exact Hg).
  rewrite Hidx, firstn_length_app, Ha.
  apply (f_equal (fun z => tag ++ s " " ++ attr ++ dq ++ s "return false;" ++ dq ++ z)).
  apply sub_disable_fuel; [exact Htag| |apply le_n].
  rewrite <- Et in Hrest. exact Hrest.
Qed.

Lemma disable_pass_adds_handler_witness :
  let x := s "<button" ++ s " class=cta" ++ [62%N] ++ s "Buy</button>" in
  sub_disable (s "<button") (s "onclick=") (length x) x
  = s "<button" ++ s " " ++ s "onclick=" ++ dq ++ s "return false;" ++ dq
      ++ sub_disable (s "<button") (s "onclick=")
           (length (s " class=cta" ++ [62%N] ++ s "Buy</button>"))
           (s " class=cta" ++ [62%N] ++ s "Buy</button>").
Proof.
  exact (disable_pass_adds_handler (s "<button") (s "onclick=") (s " class=cta")
           (s "Buy</button>") ltac:(discriminate)
           (notin_of_existsb 62 (s " class=cta") eq_refl) eq_refl).
Defined.

(** ** The refinement prompt *)

Lemma prompt_glyph_icon (c : N) : is_prompt_glyph c = true -> is_icon_glyph c = true.
Proof.
  unfold is_prompt_glyph, is_icon_glyph. rewrite !existsb_exists.
  intros [x [Hx Hc]]. exists x. split; [|exact Hc].
  simpl in Hx |- *. tauto.
Qed.

Lemma filter_length_mono {A} (f g : A -> bool) (l : list A) :
  (forall x, f x = true -> g x = true) -> (length (filter f l) <= length (filter g l))%nat.
Proof.
  intro H. induction l as [|x l IH]; simpl; [lia|].
  destruct (f x) eqn:Ef.
  - rewrite (H x Ef). simpl. lia.
  - destruct (g x); simpl; lia.
Qed.

(** X14 (refinement prompt). Whatever the formatting of the score, the
    prompt ends with the current markup followed by the closing line of
    its branch; the minor-improvements branch is taken only for a visual
    score above 0.8 (0.8 itself gets the low-similarity text); and the
    number of Unicode icons the low-similarity text reports is at most the
    glyph count the asset scorer uses on the same markup. *)
Theorem refinement_prompt_shape (fmt3 : Q -> pystr) (html : pystr) (v : Q) (it : nat) :
  let p := create_simple_refinement_prompt fmt3 html v it in
  (0.8 < v -> starts_with good_prompt_head p = true
              /\ ends_with (html ++ good_prompt_tail) p = true)
  /\ (v <= 0.8 -> starts_with low_prompt_head p = true
                  /\ ends_with (html ++ low_prompt_tail) p = true
                  /\ (length (filter is_prompt_glyph html) <= count_icon_glyphs html)%nat).
Proof.
  cbv zeta. unfold create_simple_refinement_prompt.
  assert (Hend : forall pre x, ends_with x (pre ++ x) = true).
  { intros pre x. unfold ends_with. rewrite rev_app_distr. apply starts_with_refl_app. }
  split; intro Hv.
  - apply Qlt_bool_iff in Hv. rewrite Hv. split; [apply starts_with_refl_app|].
    replace (good_prompt_head ++ fmt3 v ++ good_prompt_body ++ html ++ good_prompt_tail)
      with ((good_prompt_head ++ fmt3 v ++ good_prompt_body) ++ html ++ good_prompt_tail)
      by (rewrite <- !app_assoc; reflexivity).
    apply Hend.
  - destruct (Qlt_bool 0.8 v) eqn:E.
    { apply Qlt_bool_iff in E. exfalso. exact (Qlt_not_le _ _ E Hv). }
    cbv zeta. split; [apply starts_with_refl_app|]. split.
    + match goal with
      | |- ends_with ?x (?a ++ ?b ++ ?c ++ ?d ++ ?e ++ ?f ++ ?g ++ html ++ ?k) = true =>
        replace (a ++ b ++ c ++ d ++ e ++ f ++ g ++ html ++ k)
          with ((a ++ b ++ c ++ d ++ e ++ f ++ g) ++ html ++ k)
          by (rewrite <- !app_assoc; reflexivity)
      end.
      apply Hend.
    + apply filter_length_mono. exact prompt_glyph_icon.
Qed.
